(** * The console input buffer and the VT renderer's invalid region

    A shallow embedding of [INPUT_INFORMATION] (the circular buffer of
    [INPUT_RECORD]s of the console host: constructor, [ReadBuffer],
    [WriteBuffer], [SetInputBufferSize], the flush routines, the public
    read/write/prepend entry points) and of the invalidation helpers of
    [VtEngine] ([_InvalidCombine], [_InvalidRestrict]).

    Conventions of the embedding.
    - [ULONG], [DWORD] and [WORD] values are integers of [Z] whose
      wrap-around is written out at every assignment the source makes.
    - A pointer is the integer value of its address.  The backing store is
      a [BLOCK]: its base address and the [INPUT_RECORD] stored at each
      address.  Pointer differences are taken inside one block.
    - [memmove] copies whole records; every length the routines pass to it
      is a multiple of [sizeof(INPUT_RECORD)] unless a [ULONG] product has
      wrapped.
    - The caller's record arrays are lists; the records a read stores in
      the destination array are returned as a list. *)

From Stdlib Require Import ZArith List Bool Lia.
Import ListNotations.
Local Open Scope Z_scope.

(** ** Integer types and status codes *)

Definition WORD (x : Z) : Z := x mod 2 ^ 16.
Definition ULONG (x : Z) : Z := x mod 2 ^ 32.
Definition ULONG_MAX : Z := 2 ^ 32 - 1.

Definition NTSTATUS := Z.
Definition STATUS_SUCCESS : NTSTATUS := 0.
Definition STATUS_NO_MEMORY : NTSTATUS := 0xC0000017.
Definition STATUS_INTEGER_OVERFLOW : NTSTATUS := 0xC0000095.
Definition CONSOLE_STATUS_WAIT : NTSTATUS := 0xC0030001.

(** [NT_SUCCESS(Status)] is [((NTSTATUS)(Status)) >= 0]: the sign bit of
    the 32-bit value is clear. *)
Definition NT_SUCCESS (Status : NTSTATUS) : bool := Status <? 0x80000000.

(** intsafe.h: the checked operations return the result, or nothing when
    it does not fit. *)
Definition DWordAdd (a b : Z) : option Z :=
  if a + b <=? ULONG_MAX then Some (a + b) else None.
Definition DWordMult (a b : Z) : option Z :=
  if a * b <=? ULONG_MAX then Some (a * b) else None.
Definition ULongMult (a b : Z) : option Z := DWordMult a b.

(** ** Input records (wincon.h) *)

Record COORD := { X : Z; Y : Z }.

Record KEY_EVENT_RECORD := {
  bKeyDown : bool;
  wRepeatCount : Z;
  wVirtualKeyCode : Z;
  wVirtualScanCode : Z;
  UnicodeChar : Z;
  dwControlKeyState : Z
}.

Record MOUSE_EVENT_RECORD := {
  dwMousePosition : COORD;
  dwButtonState : Z;
  dwMouseControlKeyState : Z;
  dwEventFlags : Z
}.

Inductive INPUT_RECORD :=
| KEY_EVENT (KeyEvent : KEY_EVENT_RECORD)
| MOUSE_EVENT (MouseEvent : MOUSE_EVENT_RECORD)
| WINDOW_BUFFER_SIZE_EVENT (dwSize : COORD)
| MENU_EVENT (dwCommandId : Z)
| FOCUS_EVENT (bSetFocus : bool).

Definition sizeof_INPUT_RECORD : Z := 20.
Definition MOUSE_MOVED : Z := 0x0001.
Definition NLS_IME_CONVERSION : Z := 0x00800000.
Definition VK_PAUSE : Z := 0x13.
Definition ENABLE_PROCESSED_INPUT : Z := 0x0001.
Definition ENABLE_LINE_INPUT : Z := 0x0002.
Definition ENABLE_ECHO_INPUT : Z := 0x0004.
Definition ENABLE_MOUSE_INPUT : Z := 0x0010.

Definition isKeyEvent (r : INPUT_RECORD) : bool :=
  match r with KEY_EVENT _ => true | _ => false end.

(** [EventType == KEY_EVENT && Event.KeyEvent.bKeyDown] *)
Definition isKeyDown (r : INPUT_RECORD) : bool :=
  match r with KEY_EVENT k => bKeyDown k | _ => false end.

(** ** Memory blocks *)

Record BLOCK := { base : Z; cell : Z -> INPUT_RECORD }.

(** [*(PINPUT_RECORD)p = r] *)
Definition poke (p : Z) (r : INPUT_RECORD) (blk : BLOCK) : BLOCK :=
  {| base := base blk; cell := fun q => if q =? p then r else cell blk q |}.

(** [memmove(p, src, n * sizeof(INPUT_RECORD))] into the block. *)
Fixpoint memmove_in (p : Z) (src : list INPUT_RECORD) (blk : BLOCK) : BLOCK :=
  match src with
  | [] => blk
  | r :: src' => memmove_in (p + sizeof_INPUT_RECORD) src' (poke p r blk)
  end.

(** The [n] records stored from address [p] on: the source of a
    [memmove(dst, p, n * sizeof(INPUT_RECORD))]. *)
Fixpoint load (blk : BLOCK) (p : Z) (n : nat) : list INPUT_RECORD :=
  match n with
  | O => []
  | S n' => cell blk p :: load blk (p + sizeof_INPUT_RECORD) n'
  end.

(** ** What the routines take from the rest of the console host

    None of these is defined in the files at hand: the platform's
    [SIZE_MAX], the two buffer-size constants of inputBuffer.hpp, the
    width test of dbcs.h, the allocator, and what [PreprocessInput] uses of
    the console globals. *)
Class Host := {
  SIZE_MAX : Z;
  DEFAULT_NUMBER_OF_EVENTS : Z;
  INPUT_BUFFER_SIZE_INCREMENT : Z;
  IsCharFullWidth : Z -> bool;
  (** [new BYTE[n]]: no block, or a block with whatever it holds *)
  operator_new : Z -> option BLOCK;
  CONSOLE_SUSPENDED : Z;
  CONSOLE_OUTPUT_SUSPENDED : Z;
  IsSystemKey : Z -> bool;
  IsPauseKey : KEY_EVENT_RECORD -> bool;
  (** [UnblockWriteConsole(reason)] as a change of the console flags *)
  UnblockWriteConsole : Z -> Z -> Z
}.

(** ** The input buffer *)

Record INPUT_INFORMATION := {
  InputBuffer : BLOCK;
  InputBufferSize : Z;
  InputMode : Z;
  First : Z;
  In : Z;
  Out : Z;
  Last : Z;
  (** the state of the event object [InputWaitEvent] refers to *)
  InputWaitEvent : bool
}.

Definition set_In (p : Z) (this : INPUT_INFORMATION) : INPUT_INFORMATION :=
  {| InputBuffer := InputBuffer this; InputBufferSize := InputBufferSize this;
     InputMode := InputMode this; First := First this; In := p;
     Out := Out this; Last := Last this;
     InputWaitEvent := InputWaitEvent this |}.

Definition set_Out (p : Z) (this : INPUT_INFORMATION) : INPUT_INFORMATION :=
  {| InputBuffer := InputBuffer this; InputBufferSize := InputBufferSize this;
     InputMode := InputMode this; First := First this; In := In this;
     Out := p; Last := Last this;
     InputWaitEvent := InputWaitEvent this |}.

Definition set_InputBuffer (blk : BLOCK) (this : INPUT_INFORMATION)
  : INPUT_INFORMATION :=
  {| InputBuffer := blk; InputBufferSize := InputBufferSize this;
     InputMode := InputMode this; First := First this; In := In this;
     Out := Out this; Last := Last this;
     InputWaitEvent := InputWaitEvent this |}.

(** [SetEvent] / [ResetEvent] on [InputWaitEvent] *)
Definition set_InputWaitEvent (s : bool) (this : INPUT_INFORMATION)
  : INPUT_INFORMATION :=
  {| InputBuffer := InputBuffer this; InputBufferSize := InputBufferSize this;
     InputMode := InputMode this; First := First this; In := In this;
     Out := Out this; Last := Last this; InputWaitEvent := s |}.

Definition set_InputMode (m : Z) (this : INPUT_INFORMATION)
  : INPUT_INFORMATION :=
  {| InputBuffer := InputBuffer this; InputBufferSize := InputBufferSize this;
     InputMode := m; First := First this; In := In this;
     Out := Out this; Last := Last this;
     InputWaitEvent := InputWaitEvent this |}.

(** What [ReadBuffer] hands back: the status, the records stored in the
    destination, [*EventsRead], [*ResetWaitEvent] and the buffer. *)
Record READ_RESULT := {
  rdStatus : NTSTATUS;
  rdBuffer : list INPUT_RECORD;
  rdEventsRead : Z;
  rdResetWaitEvent : bool;
  rdInfo : INPUT_INFORMATION
}.

(** What [WriteBuffer] hands back. *)
Record WRITE_RESULT := {
  wrStatus : NTSTATUS;
  wrEventsWritten : Z;
  wrSetWaitEvent : bool;
  wrInfo : INPUT_INFORMATION
}.

(** One pass through the body of the [while] loop of [WriteBuffer]. *)
Inductive WRITE_STEP :=
| Return (r : WRITE_RESULT)
| Continue (Buffer : list INPUT_RECORD) (BufferLengthInBytes : Z)
           (EventsWritten : Z) (SetWaitEvent : bool)
           (this : INPUT_INFORMATION).

Section InputBuffer.
Context {host : Host}.

Definition SizeTMult (a b : Z) : option Z :=
  if a * b <=? SIZE_MAX then Some (a * b) else None.

(** [INPUT_INFORMATION::INPUT_INFORMATION(cEvents)].  [hInputEvent] is the
    state of the global event [g_hInputEvent]; a failed allocation throws,
    no object results. *)
Definition INPUT_INFORMATION_new (cEvents : Z) (hInputEvent : bool)
  : option INPUT_INFORMATION :=
  let cEvents := if cEvents =? 0 then DEFAULT_NUMBER_OF_EVENTS else cEvents in
  let cEvents :=
    match DWordAdd cEvents 1 with
    | None => DEFAULT_NUMBER_OF_EVENTS
    | Some uTemp =>
        match DWordMult sizeof_INPUT_RECORD uTemp with
        | None => DEFAULT_NUMBER_OF_EVENTS
        | Some _ => cEvents
        end
    end in
  let BufferSize := ULONG (sizeof_INPUT_RECORD * ULONG (cEvents + 1)) in
  match operator_new BufferSize with
  | None => None
  | Some blk =>
      Some {| InputBuffer := blk;
              InputBufferSize := cEvents;
              InputMode := Z.lor (Z.lor (Z.lor ENABLE_LINE_INPUT
                                               ENABLE_PROCESSED_INPUT)
                                        ENABLE_ECHO_INPUT)
                                 ENABLE_MOUSE_INPUT;
              First := base blk;
              In := base blk;
              Out := base blk;
              Last := base blk + BufferSize;
              InputWaitEvent := hInputEvent |}
  end.

Definition ReinitializeInputBuffer (this : INPUT_INFORMATION)
  : INPUT_INFORMATION :=
  let this := set_InputWaitEvent false this in
  let this := set_InputMode
                (Z.lor (Z.lor (Z.lor ENABLE_LINE_INPUT ENABLE_PROCESSED_INPUT)
                              ENABLE_ECHO_INPUT) ENABLE_MOUSE_INPUT) this in
  let this := set_In (base (InputBuffer this)) this in
  set_Out (base (InputBuffer this)) this.

Definition GetNumberOfReadyEvents (this : INPUT_INFORMATION) : Z :=
  let pcEvents :=
    if In this <? Out this
    then ULONG (ULONG (Last this - Out this) + ULONG (In this - First this))
    else ULONG (In this - Out this) in
  pcEvents / sizeof_INPUT_RECORD.

Definition FlushInputBuffer (this : INPUT_INFORMATION) : INPUT_INFORMATION :=
  let this := set_In (base (InputBuffer this)) this in
  let this := set_Out (base (InputBuffer this)) this in
  set_InputWaitEvent false this.

(** *** ReadBuffer *)

(** The number of destination character slots a record takes in a
    non-Unicode read. *)
Definition slotsOf (r : INPUT_RECORD) : Z :=
  match r with
  | KEY_EVENT k => if IsCharFullWidth (UnicodeChar k) then 2 else 1
  | _ => 1
  end.

(** [while (BufferLengthInBytes < Length && OldTransferLength)]: the
    records copied, and the final [BufferLengthInBytes] and
    [OldTransferLength]. *)
Fixpoint TranslateRecords (blk : BLOCK) (Length : Z) (QueueRecords : Z)
    (BufferLengthInBytes : Z) (OldTransferLength : nat)
  : list INPUT_RECORD * Z * nat :=
  match OldTransferLength with
  | O => ([], BufferLengthInBytes, O)
  | S Old' =>
      if BufferLengthInBytes <? Length then
        let r := cell blk QueueRecords in
        let '(rs, BLB, Old) :=
          TranslateRecords blk Length (QueueRecords + sizeof_INPUT_RECORD)
            (ULONG (BufferLengthInBytes + slotsOf r)) Old' in
        (r :: rs, BLB, Old)
      else ([], BufferLengthInBytes, OldTransferLength)
  end.

(** One segment of the transfer, of [TransferLength] bytes from [src]:
    the records copied, [BufferLengthInBytes] and [TransferLength]
    afterwards. *)
Definition TransferSegment (Unicode : bool) (blk : BLOCK) (Length : Z)
    (src : Z) (BufferLengthInBytes TransferLength : Z)
  : list INPUT_RECORD * Z * Z :=
  if negb Unicode then
    let '(rs, BLB, Old) :=
      TranslateRecords blk Length src 0
        (Z.to_nat (TransferLength / sizeof_INPUT_RECORD)) in
    (rs, BLB, ULONG (TransferLength - Z.of_nat Old * sizeof_INPUT_RECORD))
  else
    (load blk src (Z.to_nat (TransferLength / sizeof_INPUT_RECORD)),
     BufferLengthInBytes, TransferLength).

Definition readDone (Buffer : list INPUT_RECORD) (EventsRead : Z)
    (this : INPUT_INFORMATION) : READ_RESULT :=
  {| rdStatus := STATUS_SUCCESS; rdBuffer := Buffer;
     rdEventsRead := EventsRead;
     rdResetWaitEvent := Out this =? In this;
     rdInfo := this |}.

Definition ReadBuffer (Length : Z) (Peek StreamRead Unicode : bool)
    (this : INPUT_INFORMATION) : READ_RESULT :=
  if StreamRead && isKeyEvent (cell (InputBuffer this) (Out this)) then
    let Buffer := [cell (InputBuffer this) (Out this)] in
    let this := set_Out (Out this + sizeof_INPUT_RECORD) this in
    let this := if Last this =? Out this
                then set_Out (First this) this else this in
    readDone Buffer 1 this
  else
  let BufferLengthInBytes := ULONG (Length * sizeof_INPUT_RECORD) in
  if In this >? Out this then
    let TransferLength :=
      if In this - Out this >? BufferLengthInBytes
      then BufferLengthInBytes else ULONG (In this - Out this) in
    let '(Buffer, _, TransferLength) :=
      TransferSegment Unicode (InputBuffer this) Length (Out this)
        BufferLengthInBytes TransferLength in
    let EventsRead := TransferLength / sizeof_INPUT_RECORD in
    let this := if negb Peek
                then set_Out (Out this + TransferLength) this else this in
    readDone Buffer EventsRead this
  else
    let TransferLength :=
      if Last this - Out this >? BufferLengthInBytes
      then BufferLengthInBytes else ULONG (Last this - Out this) in
    let '(Buffer1, BufferLengthInBytes, TransferLength) :=
      TransferSegment Unicode (InputBuffer this) Length (Out this)
        BufferLengthInBytes TransferLength in
    let EventsRead := TransferLength / sizeof_INPUT_RECORD in
    let this :=
      if negb Peek then
        let this := set_Out (Out this + TransferLength) this in
        if Out this =? Last this then set_Out (First this) this else this
      else this in
    if (if negb Unicode then Length <=? BufferLengthInBytes
        else EventsRead =? Length)
    then readDone Buffer1 EventsRead this
    else
      (* hit end of buffer, read from beginning *)
      let OldTransferLength := TransferLength in
      let finish (Buffer2 : list INPUT_RECORD) (TransferLength : Z) :=
        let EventsRead :=
          ULONG (EventsRead + TransferLength / sizeof_INPUT_RECORD) in
        let this := if negb Peek
                    then set_Out (First this + TransferLength) this
                    else this in
        readDone (Buffer1 ++ Buffer2) EventsRead this in
      if negb Unicode then
        let Length := ULONG (Length - BufferLengthInBytes) in
        if Length =? 0 then readDone Buffer1 EventsRead this
        else
          let BufferLengthInBytes := ULONG (Length * sizeof_INPUT_RECORD) in
          let TransferLength :=
            if In this - First this >? BufferLengthInBytes
            then BufferLengthInBytes else ULONG (In this - First this) in
          let '(Buffer2, _, TransferLength) :=
            TransferSegment false (InputBuffer this) Length (First this)
              BufferLengthInBytes TransferLength in
          finish Buffer2 TransferLength
      else
        let TransferLength :=
          if In this - First this
             >? ULONG (BufferLengthInBytes - OldTransferLength)
          then ULONG (BufferLengthInBytes - OldTransferLength)
          else ULONG (In this - First this) in
        let '(Buffer2, _, TransferLength) :=
          TransferSegment true (InputBuffer this) Length (First this)
            BufferLengthInBytes TransferLength in
        finish Buffer2 TransferLength.

(** *** SetInputBufferSize *)

Definition SetInputBufferSize (Size : Z) (this : INPUT_INFORMATION)
  : NTSTATUS * INPUT_INFORMATION :=
  match SizeTMult sizeof_INPUT_RECORD (ULONG (Size + 1)) with
  | None => (STATUS_INTEGER_OVERFLOW, this)
  | Some BufferSize =>
      match operator_new BufferSize with
      | None => (STATUS_NO_MEMORY, this)
      | Some NewBuffer =>
          (* Copy old input buffer. Let the ReadBuffer do any compaction
             work. *)
          let r := ReadBuffer Size true false true this in
          if negb (NT_SUCCESS (rdStatus r)) then (rdStatus r, rdInfo r)
          else
            let NewBuffer :=
              memmove_in (base NewBuffer) (rdBuffer r) NewBuffer in
            (rdStatus r,
             {| InputBuffer := NewBuffer;
                InputBufferSize := Size;
                InputMode := InputMode (rdInfo r);
                First := base NewBuffer;
                In := base NewBuffer
                      + sizeof_INPUT_RECORD * rdEventsRead r;
                Out := base NewBuffer;
                Last := base NewBuffer + BufferSize;
                InputWaitEvent := InputWaitEvent (rdInfo r) |})
      end
  end.

(** *** FlushAllButKeys *)

(** The [for] loop of [FlushAllButKeys] over the records of the scratch
    copy: the final [InPtr] and the block. *)
Fixpoint KeepKeys (limit : Z) (TmpInputBuffer : list INPUT_RECORD)
    (InPtr : Z) (blk : BLOCK) : Z * BLOCK :=
  match TmpInputBuffer with
  | [] => (InPtr, blk)
  | r :: Tmp' =>
      if limit <=? InPtr then (InPtr, blk)
      else if isKeyEvent r
           then KeepKeys limit Tmp' (InPtr + sizeof_INPUT_RECORD)
                  (poke InPtr r blk)
           else KeepKeys limit Tmp' InPtr blk
  end.

Definition FlushAllButKeys (this : INPUT_INFORMATION)
  : NTSTATUS * INPUT_INFORMATION :=
  if negb (In this =? Out this) then
    match DWordMult sizeof_INPUT_RECORD (ULONG (InputBufferSize this + 1)) with
    | None => (STATUS_INTEGER_OVERFLOW, this)
    | Some BufferSize =>
        match operator_new BufferSize with
        | None => (STATUS_NO_MEMORY, this)
        | Some _ =>
            let r := ReadBuffer (InputBufferSize this) true false true this in
            if negb (NT_SUCCESS (rdStatus r)) then (rdStatus r, rdInfo r)
            else
              let this := rdInfo r in
              let this := set_Out (base (InputBuffer this)) this in
              let '(InPtr, blk) :=
                KeepKeys (base (InputBuffer this)
                          + sizeof_INPUT_RECORD * (InputBufferSize this - 1))
                  (firstn (Z.to_nat (rdEventsRead r)) (rdBuffer r))
                  (base (InputBuffer this)) (InputBuffer this) in
              let this := set_In InPtr (set_InputBuffer blk this) in
              let this := if In this =? Out this
                          then set_InputWaitEvent false this else this in
              (STATUS_SUCCESS, this)
        end
    end
  else (STATUS_SUCCESS, this).

(** *** ReadInputBuffer

    [ReadCount] is the read count of [pHandleData]; [WaitStatus] is what
    [WaitForMoreToRead] returns for this call. *)
Record READ_INPUT_RESULT := {
  riStatus : NTSTATUS;
  riRecords : list INPUT_RECORD;
  riLength : Z;
  riReadCount : Z;
  riInfo : INPUT_INFORMATION
}.

Definition ReadInputBuffer (pcLength : Z)
    (fPeek fWaitForData fStreamRead : bool) (ReadCount : Z)
    (WaitStatus : NTSTATUS) (fUnicode : bool) (this : INPUT_INFORMATION)
  : READ_INPUT_RESULT :=
  let read (ReadCount : Z) :=
    let r := ReadBuffer pcLength fPeek fStreamRead fUnicode this in
    let this := rdInfo r in
    let this := if rdResetWaitEvent r
                then set_InputWaitEvent false this else this in
    {| riStatus := rdStatus r; riRecords := rdBuffer r;
       riLength := rdEventsRead r; riReadCount := ReadCount;
       riInfo := this |} in
  if In this =? Out this then
    if negb fWaitForData then
      {| riStatus := STATUS_SUCCESS; riRecords := []; riLength := 0;
         riReadCount := ReadCount; riInfo := this |}
    else
      let ReadCount := ReadCount + 1 in
      if negb (NT_SUCCESS WaitStatus) then
        let ReadCount :=
          if negb (WaitStatus =? CONSOLE_STATUS_WAIT)
          then ReadCount - 1 else ReadCount in
        {| riStatus := WaitStatus; riRecords := []; riLength := 0;
           riReadCount := ReadCount; riInfo := this |}
      else read ReadCount
  else read ReadCount.

(** *** WriteBuffer *)

(** The record before [In], where the last write ended. *)
Definition LastInputEvent (this : INPUT_INFORMATION) : Z :=
  if In this =? First this
  then Last this - sizeof_INPUT_RECORD
  else In this - sizeof_INPUT_RECORD.

Definition CoalesceMouse (m : MOUSE_EVENT_RECORD) (this : INPUT_INFORMATION)
  : option INPUT_INFORMATION :=
  let p := LastInputEvent this in
  match cell (InputBuffer this) p with
  | MOUSE_EVENT lm =>
      if dwEventFlags lm =? MOUSE_MOVED then
        let lm' :=
          {| dwMousePosition := {| X := X (dwMousePosition m);
                                   Y := Y (dwMousePosition m) |};
             dwButtonState := dwButtonState lm;
             dwMouseControlKeyState := dwMouseControlKeyState lm;
             dwEventFlags := dwEventFlags lm |} in
        Some (set_InputBuffer (poke p (MOUSE_EVENT lm') (InputBuffer this))
                this)
      else None
  | _ => None
  end.

(** [LastInputEvent->Event.KeyEvent.wRepeatCount += ...], on a [WORD]. *)
Definition AddRepeatCount (lk k : KEY_EVENT_RECORD) : KEY_EVENT_RECORD :=
  {| bKeyDown := bKeyDown lk;
     wRepeatCount := WORD (wRepeatCount lk + wRepeatCount k);
     wVirtualKeyCode := wVirtualKeyCode lk;
     wVirtualScanCode := wVirtualScanCode lk;
     UnicodeChar := UnicodeChar lk;
     dwControlKeyState := dwControlKeyState lk |}.

Definition CoalesceKey (k : KEY_EVENT_RECORD) (this : INPUT_INFORMATION)
  : option INPUT_INFORMATION :=
  let p := LastInputEvent this in
  let merge (lk : KEY_EVENT_RECORD) :=
    Some (set_InputBuffer
            (poke p (KEY_EVENT (AddRepeatCount lk k)) (InputBuffer this))
            this) in
  (* don't coalesce the key event if it's a full width char *)
  if IsCharFullWidth (UnicodeChar k) then None
  else if negb (Z.land (dwControlKeyState k) NLS_IME_CONVERSION =? 0) then
    match cell (InputBuffer this) p with
    | KEY_EVENT lk =>
        if bKeyDown lk
           && (UnicodeChar lk =? UnicodeChar k)
           && (dwControlKeyState lk =? dwControlKeyState k)
        then merge lk else None
    | _ => None
    end
  else
    match cell (InputBuffer this) p with
    | KEY_EVENT lk =>
        if bKeyDown lk
           && (wVirtualScanCode lk =? wVirtualScanCode k)
           && (UnicodeChar lk =? UnicodeChar k)
           && (dwControlKeyState lk =? dwControlKeyState k)
        then merge lk else None
    | _ => None
    end.

(** The coalescing block at the head of [WriteBuffer]: the buffer after a
    merge, or nothing when control reaches the append loop. *)
Definition Coalesce (Buffer : list INPUT_RECORD) (Length : Z)
    (this : INPUT_INFORMATION) : option INPUT_INFORMATION :=
  if (Length =? 1) && negb (Out this =? In this) then
    match Buffer with
    | MOUSE_EVENT m :: _ =>
        if dwEventFlags m =? MOUSE_MOVED then CoalesceMouse m this else None
    | KEY_EVENT k :: _ =>
        if bKeyDown k then CoalesceKey k this else None
    | _ => None
    end
  else None.

(** The [memmove] into [In] and the bookkeeping after it; [wrap] is set on
    the path that resets [In] to [First] when it reaches [Last]. *)
Definition CopyIn (wrap : bool) (TransferLength : Z)
    (Buffer : list INPUT_RECORD) (BufferLengthInBytes EventsWritten : Z)
    (SetWaitEvent : bool) (this : INPUT_INFORMATION) : WRITE_STEP :=
  let n := Z.to_nat (TransferLength / sizeof_INPUT_RECORD) in
  let this :=
    set_InputBuffer
      (memmove_in (In this) (firstn n Buffer) (InputBuffer this)) this in
  let Buffer := skipn n Buffer in
  let EventsWritten :=
    ULONG (EventsWritten + TransferLength / sizeof_INPUT_RECORD) in
  let BufferLengthInBytes := ULONG (BufferLengthInBytes - TransferLength) in
  let this := set_In (In this + TransferLength) this in
  let this := if wrap && (In this =? Last this)
              then set_In (First this) this else this in
  Continue Buffer BufferLengthInBytes EventsWritten SetWaitEvent this.

Definition GrowInputBuffer (Length : Z) (this : INPUT_INFORMATION)
  : NTSTATUS * INPUT_INFORMATION :=
  SetInputBufferSize
    (ULONG (InputBufferSize this + Length + INPUT_BUFFER_SIZE_INCREMENT))
    this.

Definition writeReturn (Status : NTSTATUS) (EventsWritten : Z)
    (SetWaitEvent : bool) (this : INPUT_INFORMATION) : WRITE_RESULT :=
  {| wrStatus := Status; wrEventsWritten := EventsWritten;
     wrSetWaitEvent := SetWaitEvent; wrInfo := this |}.

(** From the label [OutPath] to the end of the loop body. *)
Definition OutPath (Length : Z) (Buffer : list INPUT_RECORD)
    (BufferLengthInBytes EventsWritten : Z) (SetWaitEvent : bool)
    (this : INPUT_INFORMATION) : WRITE_STEP :=
  if Last this - In this >? BufferLengthInBytes then
    CopyIn true BufferLengthInBytes
      Buffer BufferLengthInBytes EventsWritten SetWaitEvent this
  else if (First this =? Out this)
          && (In this =? Last this - sizeof_INPUT_RECORD) then
    (* buffer is totally full *)
    let '(Status, this) := GrowInputBuffer Length this in
    if negb (NT_SUCCESS Status)
    then Return (writeReturn Status EventsWritten SetWaitEvent this)
    else CopyIn true BufferLengthInBytes
           Buffer BufferLengthInBytes EventsWritten SetWaitEvent this
  else
    let TransferLength := ULONG (Last this - In this) in
    let TransferLength :=
      if First this =? Out this
      then ULONG (TransferLength - sizeof_INPUT_RECORD)
      else TransferLength in
    CopyIn true TransferLength
      Buffer BufferLengthInBytes EventsWritten SetWaitEvent this.

(** The body of the [while] loop, entered while fewer than [Length]
    events are written. *)
Definition WriteStep (Length : Z) (Buffer : list INPUT_RECORD)
    (BufferLengthInBytes EventsWritten : Z) (SetWaitEvent : bool)
    (this : INPUT_INFORMATION) : WRITE_STEP :=
  if Out this >? In this then
    (* check if we need to grow the input buffer size *)
    if Out this - In this - sizeof_INPUT_RECORD <? BufferLengthInBytes then
      let '(Status, this) := GrowInputBuffer Length this in
      if negb (NT_SUCCESS Status) then
        let TransferLength :=
          ULONG (Out this - In this - sizeof_INPUT_RECORD) in
        if TransferLength =? 0
        then Return (writeReturn Status EventsWritten SetWaitEvent this)
        else CopyIn false TransferLength
               Buffer BufferLengthInBytes EventsWritten SetWaitEvent this
      else
        (* after resizing, in > out *)
        OutPath Length Buffer BufferLengthInBytes EventsWritten
          SetWaitEvent this
    else
      CopyIn false BufferLengthInBytes
        Buffer BufferLengthInBytes EventsWritten SetWaitEvent this
  else
    (* check if we started out with an empty buffer *)
    let SetWaitEvent := if Out this =? In this then true else SetWaitEvent in
    OutPath Length Buffer BufferLengthInBytes EventsWritten SetWaitEvent this.

(** [OutPath] and [WriteStep] with the resize routine they call as a
    parameter, to tell which buffers the routine is handed:
    [WriteStep] is [WriteStepWith GrowInputBuffer]. *)
Definition OutPathWith
    (grow : Z -> INPUT_INFORMATION -> NTSTATUS * INPUT_INFORMATION)
    (Length : Z) (Buffer : list INPUT_RECORD)
    (BufferLengthInBytes EventsWritten : Z) (SetWaitEvent : bool)
    (this : INPUT_INFORMATION) : WRITE_STEP :=
  if Last this - In this >? BufferLengthInBytes then
    CopyIn true BufferLengthInBytes
      Buffer BufferLengthInBytes EventsWritten SetWaitEvent this
  else if (First this =? Out this)
          && (In this =? Last this - sizeof_INPUT_RECORD) then
    let '(Status, this) := grow Length this in
    if negb (NT_SUCCESS Status)
    then Return (writeReturn Status EventsWritten SetWaitEvent this)
    else CopyIn true BufferLengthInBytes
           Buffer BufferLengthInBytes EventsWritten SetWaitEvent this
  else
    let TransferLength := ULONG (Last this - In this) in
    let TransferLength :=
      if First this =? Out this
      then ULONG (TransferLength - sizeof_INPUT_RECORD)
      else TransferLength in
    CopyIn true TransferLength
      Buffer BufferLengthInBytes EventsWritten SetWaitEvent this.

Definition WriteStepWith
    (grow : Z -> INPUT_INFORMATION -> NTSTATUS * INPUT_INFORMATION)
    (Length : Z) (Buffer : list INPUT_RECORD)
    (BufferLengthInBytes EventsWritten : Z) (SetWaitEvent : bool)
    (this : INPUT_INFORMATION) : WRITE_STEP :=
  if Out this >? In this then
    if Out this - In this - sizeof_INPUT_RECORD <? BufferLengthInBytes then
      let '(Status, this) := grow Length this in
      if negb (NT_SUCCESS Status) then
        let TransferLength :=
          ULONG (Out this - In this - sizeof_INPUT_RECORD) in
        if TransferLength =? 0
        then Return (writeReturn Status EventsWritten SetWaitEvent this)
        else CopyIn false TransferLength
               Buffer BufferLengthInBytes EventsWritten SetWaitEvent this
      else
        OutPathWith grow Length Buffer BufferLengthInBytes EventsWritten
          SetWaitEvent this
    else
      CopyIn false BufferLengthInBytes
        Buffer BufferLengthInBytes EventsWritten SetWaitEvent this
  else
    let SetWaitEvent := if Out this =? In this then true else SetWaitEvent in
    OutPathWith grow Length Buffer BufferLengthInBytes EventsWritten
      SetWaitEvent this.

(** The loop, for at most [fuel] passes; a pass that transfers nothing
    and does not return leaves everything as it was, so the source loop
    then never ends, and the result is [None]. *)
Fixpoint WriteLoop (fuel : nat) (Length : Z) (Buffer : list INPUT_RECORD)
    (BufferLengthInBytes EventsWritten : Z) (SetWaitEvent : bool)
    (this : INPUT_INFORMATION) : option WRITE_RESULT :=
  if EventsWritten <? Length then
    match fuel with
    | O => None
    | S fuel' =>
        match WriteStep Length Buffer BufferLengthInBytes EventsWritten
                SetWaitEvent this with
        | Return r => Some r
        | Continue Buffer BufferLengthInBytes EventsWritten SetWaitEvent
            this =>
            WriteLoop fuel' Length Buffer BufferLengthInBytes EventsWritten
              SetWaitEvent this
        end
    end
  else Some (writeReturn STATUS_SUCCESS EventsWritten SetWaitEvent this).

Definition WriteBuffer (Buffer : list INPUT_RECORD) (Length : Z)
    (this : INPUT_INFORMATION) : option WRITE_RESULT :=
  match Coalesce Buffer Length this with
  | Some this => Some (writeReturn STATUS_SUCCESS 1 false this)
  | None =>
      WriteLoop (S (Z.to_nat Length)) Length Buffer
        (ULONG (Length * sizeof_INPUT_RECORD)) 0 false this
  end.

(** *** PreprocessInput

    [Flags] is [g_ciConsoleInformation.Flags].  The result is the records
    left at the front of the array (their number is the returned
    [nLength]) and the flags. *)
Fixpoint PreprocessInput (InputMode : Z) (Flags : Z)
    (InputEvent : list INPUT_RECORD) (NumEvents : nat)
  : list INPUT_RECORD * Z :=
  match NumEvents, InputEvent with
  | S NumEvents', r :: rest =>
      let keep :=
        let '(kept, Flags) :=
          PreprocessInput InputMode Flags rest NumEvents' in
        (r :: kept, Flags) in
      match r with
      | KEY_EVENT k =>
          if bKeyDown k then
            (* if output is suspended, any keyboard input releases it. *)
            if negb (Z.land Flags CONSOLE_SUSPENDED =? 0)
               && negb (IsSystemKey (wVirtualKeyCode k))
            then PreprocessInput InputMode
                   (UnblockWriteConsole CONSOLE_OUTPUT_SUSPENDED Flags)
                   rest NumEvents'
            (* intercept control-s *)
            else if negb (Z.land InputMode ENABLE_LINE_INPUT =? 0)
                    && ((wVirtualKeyCode k =? VK_PAUSE) || IsPauseKey k)
            then PreprocessInput InputMode
                   (Z.lor Flags CONSOLE_OUTPUT_SUSPENDED) rest NumEvents'
            else keep
          else keep
      | _ => keep
      end
  | _, _ => ([], Flags)
  end.

(** *** PrependInputBuffer and WriteInputBuffer *)

Record PREPEND_RESULT := {
  ppStatus : NTSTATUS;
  ppLength : Z;
  ppFlags : Z;
  ppInfo : INPUT_INFORMATION
}.

Definition PrependInputBuffer (Flags : Z) (pInputRecord : list INPUT_RECORD)
    (pcLength : Z) (this : INPUT_INFORMATION) : option PREPEND_RESULT :=
  let '(pInputRecord, Flags) :=
    PreprocessInput (InputMode this) Flags pInputRecord
      (Z.to_nat pcLength) in
  let cInputRecords := Z.of_nat (length pInputRecord) in
  let done (Status : NTSTATUS) (Length : Z) (this : INPUT_INFORMATION) :=
    Some {| ppStatus := Status; ppLength := Length; ppFlags := Flags;
            ppInfo := this |} in
  if cInputRecords =? 0 then done STATUS_SUCCESS pcLength this
  else
    let NumExistingEvents := GetNumberOfReadyEvents this in
    let write (pExistingEvents : option (list INPUT_RECORD))
              (EventsRead : Z) (this : INPUT_INFORMATION) :=
      (* write new info to buffer *)
      match WriteBuffer pInputRecord cInputRecords this with
      | None => None
      | Some w1 =>
          let SetWaitEvent := wrSetWaitEvent w1 in
          let finish (this : INPUT_INFORMATION) :=
            let this := if SetWaitEvent
                        then set_InputWaitEvent true this else this in
            done STATUS_SUCCESS cInputRecords this in
          (* Write existing info to buffer. *)
          match pExistingEvents with
          | Some ExistingEvents =>
              match WriteBuffer ExistingEvents EventsRead (wrInfo w1) with
              | None => None
              | Some w2 => finish (wrInfo w2)
              end
          | None => finish (wrInfo w1)
          end
      end in
    if negb (NumExistingEvents =? 0) then
      match ULongMult NumExistingEvents sizeof_INPUT_RECORD with
      | None => done STATUS_INTEGER_OVERFLOW pcLength this
      | Some NumBytes =>
          match operator_new NumBytes with
          | None => done STATUS_NO_MEMORY pcLength this
          | Some _ =>
              let r := ReadBuffer NumExistingEvents false false true this in
              if negb (NT_SUCCESS (rdStatus r))
              then done (rdStatus r) pcLength (rdInfo r)
              else write (Some (rdBuffer r)) (rdEventsRead r) (rdInfo r)
          end
      end
    else write None 0 this.

Definition WriteInputBuffer (Flags : Z) (pInputRecord : list INPUT_RECORD)
    (cInputRecords : Z) (this : INPUT_INFORMATION)
  : option (Z * Z * INPUT_INFORMATION) :=
  let '(pInputRecord, Flags) :=
    PreprocessInput (InputMode this) Flags pInputRecord
      (Z.to_nat cInputRecords) in
  let cInputRecords := Z.of_nat (length pInputRecord) in
  if cInputRecords =? 0 then Some (0, Flags, this)
  else
    match WriteBuffer pInputRecord cInputRecords this with
    | None => None
    | Some w =>
        let this := wrInfo w in
        let this := if wrSetWaitEvent w
                    then set_InputWaitEvent true this else this in
        Some (wrEventsWritten w, Flags, this)
    end.

End InputBuffer.

(** ** The queue a buffer holds, and the states the routines maintain *)

(** The queued records in reading order: from [Out] up to [In], through
    the end of the store when the data wraps. *)
Definition contents (this : INPUT_INFORMATION) : list INPUT_RECORD :=
  if In this <? Out this then
    load (InputBuffer this) (Out this)
      (Z.to_nat ((Last this - Out this) / sizeof_INPUT_RECORD))
    ++ load (InputBuffer this) (First this)
         (Z.to_nat ((In this - First this) / sizeof_INPUT_RECORD))
  else
    load (InputBuffer this) (Out this)
      (Z.to_nat ((In this - Out this) / sizeof_INPUT_RECORD)).

(** The shape every routine leaves the object in: a store of
    [InputBufferSize + 1] records from [First] to [Last], of a byte size
    that fits a [ULONG], and both cursors on a record of the store. *)
Definition wf (this : INPUT_INFORMATION) : Prop :=
  exists i o : Z,
    First this = base (InputBuffer this)
    /\ Last this
       = First this + sizeof_INPUT_RECORD * (InputBufferSize this + 1)
    /\ 1 <= InputBufferSize this
    /\ sizeof_INPUT_RECORD * (InputBufferSize this + 1) <= ULONG_MAX
    /\ In this = First this + sizeof_INPUT_RECORD * i
    /\ 0 <= i <= InputBufferSize this
    /\ Out this = First this + sizeof_INPUT_RECORD * o
    /\ 0 <= o <= InputBufferSize this.

(** The wait event is signalled exactly when events are ready. *)
Definition signal_ok (this : INPUT_INFORMATION) : Prop :=
  InputWaitEvent this = true <-> 0 < GetNumberOfReadyEvents this.

(** The key-repeat rule in the words of the specification: a new key-down
    record [k] is merged into the last record when (a) [k] carries the IME
    conversion flag and the last record is a key-down with the same
    character and control-key state, or (b) the last record is a key-down
    with the same scan code, character and control-key state. *)
Definition key_repeat_rule (k : KEY_EVENT_RECORD) (last : INPUT_RECORD)
  : Prop :=
  match last with
  | KEY_EVENT lk =>
      (Z.land (dwControlKeyState k) NLS_IME_CONVERSION <> 0
       /\ bKeyDown lk = true
       /\ UnicodeChar lk = UnicodeChar k
       /\ dwControlKeyState lk = dwControlKeyState k)
      \/ (bKeyDown lk = true
          /\ wVirtualScanCode lk = wVirtualScanCode k
          /\ UnicodeChar lk = UnicodeChar k
          /\ dwControlKeyState lk = dwControlKeyState k)
  | _ => False
  end.

Section Specification.
Context {host : Host}.

(** The size [WriteBuffer] asks for when it grows the buffer is a [ULONG]
    with room for the extra slot, and a store the allocator grants for it
    has a byte size that fits a [ULONG] (as every store has on a 32-bit
    host, by the check of [SizeTMult]). *)
Definition growth_fits (Length : Z) (this : INPUT_INFORMATION) : Prop :=
  InputBufferSize this + Length + INPUT_BUFFER_SIZE_INCREMENT + 1
  <= ULONG_MAX
  /\ (NT_SUCCESS (fst (GrowInputBuffer Length this)) = true ->
      sizeof_INPUT_RECORD
      * (InputBufferSize this + Length + INPUT_BUFFER_SIZE_INCREMENT + 1)
      <= ULONG_MAX).

(** What the append loop of [WriteBuffer] returns, started with [EW]
    records of [Buffer0] already behind the queue [q0]. *)
Definition WriteLoop_post (Length : Z) (Buffer0 q0 : list INPUT_RECORD)
    (EW : Z) (SW : bool) (this : INPUT_INFORMATION) (r : WRITE_RESULT)
  : Prop :=
  wf (wrInfo r)
  /\ EW <= wrEventsWritten r <= Length
  /\ contents (wrInfo r)
     = q0 ++ firstn (Z.to_nat (wrEventsWritten r)) Buffer0
  /\ InputWaitEvent (wrInfo r) = InputWaitEvent this
  /\ InputMode (wrInfo r) = InputMode this
  /\ wrSetWaitEvent r
     = (if EW <? Length
        then if Out this =? In this then true else SW
        else SW)
  /\ (InputBufferSize (wrInfo r) = InputBufferSize this
      \/ (NT_SUCCESS (fst (GrowInputBuffer Length this)) = true
          /\ wrStatus r = STATUS_SUCCESS
          /\ InputBufferSize (wrInfo r)
             = InputBufferSize this + Length
               + INPUT_BUFFER_SIZE_INCREMENT))
  /\ ((wrStatus r = STATUS_SUCCESS /\ wrEventsWritten r = Length)
      \/ (NT_SUCCESS (wrStatus r) = false
          /\ wrStatus r = fst (GrowInputBuffer Length this)
          /\ Z.of_nat (length (contents (wrInfo r)))
             = InputBufferSize (wrInfo r)
          /\ InputBufferSize (wrInfo r) = InputBufferSize this)).

(** A run of writes and reads on one buffer: [Trace this written delivered
    this'] when the run takes [this] to [this'], [written] is what the
    writes had to store, in order, and [delivered] what the reads handed
    out, in order.  A write is one that reaches the append loop (nothing
    is merged into the last record).  A write whose records fit the free
    slots, or for which the larger store is granted, has to store all its
    records; one that does not fit and is refused the larger store has to
    store the records that fit the free slots.  A read is a non-peek
    Unicode read of a buffer that holds records, as [ReadInputBuffer]
    makes it, of a length whose byte size fits a [ULONG]. *)
Inductive Trace
  : INPUT_INFORMATION -> list INPUT_RECORD -> list INPUT_RECORD
    -> INPUT_INFORMATION -> Prop :=
| Trace_done this : Trace this [] [] this
| Trace_write this Buffer w written delivered this' :
    Coalesce Buffer (Z.of_nat (length Buffer)) this = None ->
    Z.of_nat (length Buffer) * sizeof_INPUT_RECORD <= ULONG_MAX ->
    growth_fits (Z.of_nat (length Buffer)) this ->
    Z.of_nat (length Buffer)
    <= InputBufferSize this - GetNumberOfReadyEvents this
    \/ NT_SUCCESS (fst (GrowInputBuffer (Z.of_nat (length Buffer)) this))
       = true ->
    WriteBuffer Buffer (Z.of_nat (length Buffer)) this = Some w ->
    Trace (wrInfo w) written delivered this' ->
    Trace this (Buffer ++ written) delivered this'
| Trace_short this Buffer w written delivered this' :
    Coalesce Buffer (Z.of_nat (length Buffer)) this = None ->
    Z.of_nat (length Buffer) * sizeof_INPUT_RECORD <= ULONG_MAX ->
    growth_fits (Z.of_nat (length Buffer)) this ->
    InputBufferSize this - GetNumberOfReadyEvents this
    < Z.of_nat (length Buffer) ->
    NT_SUCCESS (fst (GrowInputBuffer (Z.of_nat (length Buffer)) this))
    = false ->
    WriteBuffer Buffer (Z.of_nat (length Buffer)) this = Some w ->
    Trace (wrInfo w) written delivered this' ->
    Trace this
      (firstn (Z.to_nat (InputBufferSize this - GetNumberOfReadyEvents this))
         Buffer ++ written)
      delivered this'
| Trace_read this Length StreamRead written delivered this' :
    In this <> Out this ->
    0 <= Length -> Length * sizeof_INPUT_RECORD <= ULONG_MAX ->
    Trace (rdInfo (ReadBuffer Length false StreamRead true this))
      written delivered this' ->
    Trace this written
      (rdBuffer (ReadBuffer Length false StreamRead true this) ++ delivered)
      this'.


End Specification.

(** ** The invalid region of the VT renderer *)

Module VtRenderer.

Record SMALL_RECT := { Left : Z; Top : Z; Right : Z; Bottom : Z }.

(** Modelled from the spec: the class [Viewport] of the types library
    (viewport.cpp) is not among the files at hand.  A viewport is kept as
    the rectangle with exclusive right and bottom edges that
    [FromExclusive] is given and [ToExclusive] returns; coordinates are
    not reduced to [SHORT]. *)
Record Viewport := FromExclusive { ToExclusive : SMALL_RECT }.

(** Modelled from the spec: "the union (smallest rectangle covering both
    -- not the precise non-convex union)". *)
Definition OrViewports (lhs rhs : Viewport) : Viewport :=
  FromExclusive
    {| Left := Z.min (Left (ToExclusive lhs)) (Left (ToExclusive rhs));
       Top := Z.min (Top (ToExclusive lhs)) (Top (ToExclusive rhs));
       Right := Z.max (Right (ToExclusive lhs)) (Right (ToExclusive rhs));
       Bottom := Z.max (Bottom (ToExclusive lhs))
                   (Bottom (ToExclusive rhs)) |}.

(** Modelled from the spec: the viewport "translated to origin-relative
    coordinates", of the same width and height. *)
Definition ToOrigin (v : Viewport) : Viewport :=
  FromExclusive
    {| Left := 0; Top := 0;
       Right := Right (ToExclusive v) - Left (ToExclusive v);
       Bottom := Bottom (ToExclusive v) - Top (ToExclusive v) |}.

(** Modelled from the spec: "clipped to the current viewport bounds -- a
    rectangle extending outside the viewport is truncated, never
    discarded": each edge is moved onto the viewport's edge it lies
    beyond. *)
Definition TrimToViewport (v : Viewport) (psr : SMALL_RECT) : SMALL_RECT :=
  {| Left := Z.max (Left psr) (Left (ToExclusive v));
     Top := Z.max (Top psr) (Top (ToExclusive v));
     Right := Z.min (Right psr) (Right (ToExclusive v));
     Bottom := Z.min (Bottom psr) (Bottom (ToExclusive v)) |}.

(** [r] covers [a]. *)
Definition covers (r a : Viewport) : Prop :=
  Left (ToExclusive r) <= Left (ToExclusive a)
  /\ Top (ToExclusive r) <= Top (ToExclusive a)
  /\ Right (ToExclusive a) <= Right (ToExclusive r)
  /\ Bottom (ToExclusive a) <= Bottom (ToExclusive r).

Definition HRESULT := Z.
Definition S_OK : HRESULT := 0.

(** The members of [VtEngine] the invalidation helpers use. *)
Record VtEngine := {
  _invalidRect : Viewport;
  _fInvalidRectUsed : bool;
  _lastViewport : Viewport
}.

Definition _InvalidRestrict (this : VtEngine) : HRESULT * VtEngine :=
  let oldInvalid := ToExclusive (_invalidRect this) in
  let oldInvalid := TrimToViewport (ToOrigin (_lastViewport this))
                      oldInvalid in
  (S_OK,
   {| _invalidRect := FromExclusive oldInvalid;
      _fInvalidRectUsed := _fInvalidRectUsed this;
      _lastViewport := _lastViewport this |}).

Definition _InvalidCombine (invalid : Viewport) (this : VtEngine)
  : HRESULT * VtEngine :=
  let this :=
    if negb (_fInvalidRectUsed this) then
      {| _invalidRect := invalid;
         _fInvalidRectUsed := true;
         _lastViewport := _lastViewport this |}
    else
      {| _invalidRect := OrViewports (_invalidRect this) invalid;
         _fInvalidRectUsed := _fInvalidRectUsed this;
         _lastViewport := _lastViewport this |} in
  (* Ensure invalid areas remain within bounds of window. *)
  let '(hr, this) := _InvalidRestrict this in
  if hr <? 0 then (hr, this) else (S_OK, this).

Definition Invalidate (psrRegion : SMALL_RECT) (this : VtEngine)
  : HRESULT * VtEngine :=
  let newInvalid := FromExclusive psrRegion in
  _InvalidCombine newInvalid this.

Definition InvalidateAll (this : VtEngine) : HRESULT * VtEngine :=
  _InvalidCombine (ToOrigin (_lastViewport this)) this.

(** The members of [VtEngine] that [InvalidateCursor] uses. *)
Record VtCursor := {
  _skipCursor : bool;
  _virtualTop : Z;
  _cursorMoved : bool
}.

Definition InvalidateCursor (pcoordCursor : COORD) (this : VtCursor)
  : HRESULT * VtCursor :=
  let _virtualTop :=
    if negb (_skipCursor this) && (_virtualTop this >? Y pcoordCursor)
    then Y pcoordCursor else _virtualTop this in
  (S_OK,
   {| _skipCursor := false;
      _virtualTop := _virtualTop;
      _cursorMoved := true |}).

End VtRenderer.

(** ** The mouse button helper of the window input code (windowio.cpp) *)

Module WindowIo.

(** winuser.h and wincon.h *)
Definition MK_LBUTTON : Z := 0x0001.
Definition MK_RBUTTON : Z := 0x0002.
Definition MK_MBUTTON : Z := 0x0010.
Definition FROM_LEFT_1ST_BUTTON_PRESSED : Z := 0x0001.
Definition RIGHTMOST_BUTTON_PRESSED : Z := 0x0002.
Definition FROM_LEFT_2ND_BUTTON_PRESSED : Z := 0x0004.

Definition ConvertMouseButtonState (Flag State : Z) : Z :=
  let Flag := if negb (Z.land State MK_LBUTTON =? 0)
              then Z.lor Flag FROM_LEFT_1ST_BUTTON_PRESSED else Flag in
  let Flag := if negb (Z.land State MK_MBUTTON =? 0)
              then Z.lor Flag FROM_LEFT_2ND_BUTTON_PRESSED else Flag in
  let Flag := if negb (Z.land State MK_RBUTTON =? 0)
              then Z.lor Flag RIGHTMOST_BUTTON_PRESSED else Flag in
  Flag.

End WindowIo.

(** ** A host and buffers to run the routines on *)

Definition blank_record : INPUT_RECORD := FOCUS_EVENT false.

(** A 64-bit host whose allocator hands out a block at address 4096, or
    nothing when [memory] is off. *)
Definition sample_host (memory : bool) : Host :=
  {| SIZE_MAX := 2 ^ 64 - 1;
     DEFAULT_NUMBER_OF_EVENTS := 50;
     INPUT_BUFFER_SIZE_INCREMENT := 10;
     IsCharFullWidth := fun c => (0x1100 <=? c) && (c <=? 0x115F);
     operator_new := fun _ =>
       if memory
       then Some {| base := 4096; cell := fun _ => blank_record |}
       else None;
     CONSOLE_SUSPENDED := 0x20;
     CONSOLE_OUTPUT_SUSPENDED := 0x20;
     IsSystemKey := fun _ => false;
     IsPauseKey := fun _ => false;
     UnblockWriteConsole := fun reason Flags =>
       Z.land Flags (Z.lnot reason) |}.

Definition sample_key (code repeat : Z) : INPUT_RECORD :=
  KEY_EVENT {| bKeyDown := true; wRepeatCount := repeat;
               wVirtualKeyCode := code; wVirtualScanCode := code;
               UnicodeChar := code; dwControlKeyState := 0 |}.

Definition sample_key_record (code repeat : Z) : KEY_EVENT_RECORD :=
  {| bKeyDown := true; wRepeatCount := repeat;
     wVirtualKeyCode := code; wVirtualScanCode := code;
     UnicodeChar := code; dwControlKeyState := 0 |}.

Definition sample_mouse_record (x y : Z) : MOUSE_EVENT_RECORD :=
  {| dwMousePosition := {| X := x; Y := y |}; dwButtonState := 0;
     dwMouseControlKeyState := 0; dwEventFlags := MOUSE_MOVED |}.

(** A buffer of capacity 2 at address 4096 whose first slot holds [r] and
    whose cursors are [queued] records apart: empty for 0, holding [r]
    for 1. *)
Definition sample_buffer (r : INPUT_RECORD) (queued : Z) : INPUT_INFORMATION :=
  {| InputBuffer :=
       {| base := 4096;
          cell := fun q => if q =? 4096 then r else blank_record |};
     InputBufferSize := 2;
     InputMode := 0x17;
     First := 4096;
     In := 4096 + sizeof_INPUT_RECORD * queued;
     Out := 4096;
     Last := 4096 + sizeof_INPUT_RECORD * 3;
     InputWaitEvent := 0 <? queued |}.

(** A buffer of capacity [cap] at address 4096 that holds the records
    [rs] from its first slot on, with line input off. *)
Definition sample_queue (rs : list INPUT_RECORD) (cap : Z)
  : INPUT_INFORMATION :=
  {| InputBuffer :=
       memmove_in 4096 rs {| base := 4096; cell := fun _ => blank_record |};
     InputBufferSize := cap;
     InputMode := 0;
     First := 4096;
     In := 4096 + sizeof_INPUT_RECORD * Z.of_nat (length rs);
     Out := 4096;
     Last := 4096 + sizeof_INPUT_RECORD * (cap + 1);
     InputWaitEvent := negb (Z.of_nat (length rs) =? 0) |}.


Definition sample_records : list INPUT_RECORD :=
  [sample_key 65 1; sample_key 66 1; sample_key 67 1].

(** An engine with no invalid region yet, whose viewport is the 80 by 25
    window at (3, 4). *)
Definition sample_engine : VtRenderer.VtEngine :=
  {| VtRenderer._invalidRect :=
       VtRenderer.FromExclusive (VtRenderer.Build_SMALL_RECT 0 0 0 0);
     VtRenderer._fInvalidRectUsed := false;
     VtRenderer._lastViewport :=
       VtRenderer.FromExclusive (VtRenderer.Build_SMALL_RECT 3 4 83 29) |}.

(** * Properties *)

Ltac zl := unfold sizeof_INPUT_RECORD, ULONG_MAX in *; lia.
Ltac zd :=
  unfold ULONG, sizeof_INPUT_RECORD, ULONG_MAX in *;
  Z.div_mod_to_equations; lia.

Lemma ULONG_small x : 0 <= x <= ULONG_MAX -> ULONG x = x.
Proof. unfold ULONG, ULONG_MAX. intros. apply Z.mod_small. lia. Qed.

Lemma ULONG_nonneg x : 0 <= ULONG x.
Proof. zd. Qed.

Lemma NT_SUCCESS_ok : NT_SUCCESS STATUS_SUCCESS = true.
Proof. reflexivity. Qed.

(** ** Blocks *)

Lemma base_memmove_in l : forall p blk, base (memmove_in p l blk) = base blk.
Proof.
  induction l as [|r l IH]; intros p blk; simpl; [reflexivity|].
  now rewrite IH.
Qed.

Lemma cell_memmove_in_outside l : forall p blk q,
  q < p \/ p + sizeof_INPUT_RECORD * Z.of_nat (length l) <= q ->
  cell (memmove_in p l blk) q = cell blk q.
Proof.
  induction l as [|r l IH]; intros p blk q Hq; simpl; [reflexivity|].
  rewrite IH by (simpl length in Hq; zl).
  simpl. destruct (Z.eqb_spec q p); [|reflexivity].
  simpl length in Hq. zl.
Qed.

Lemma load_length blk n : forall p, length (load blk p n) = n.
Proof. induction n; intros p; simpl; [reflexivity|]. now rewrite IHn. Qed.

Lemma load_ext blk1 blk2 n : forall p,
  (forall q, p <= q < p + sizeof_INPUT_RECORD * Z.of_nat n ->
             cell blk1 q = cell blk2 q) ->
  load blk1 p n = load blk2 p n.
Proof.
  induction n as [|n IH]; intros p H; simpl; [reflexivity|].
  rewrite H by zl. f_equal.
  apply IH. intros q Hq. apply H. zl.
Qed.

Lemma load_memmove_in_same l : forall p blk,
  load (memmove_in p l blk) p (length l) = l.
Proof.
  induction l as [|r l IH]; intros p blk; simpl; [reflexivity|].
  rewrite IH. f_equal.
  rewrite cell_memmove_in_outside by zl.
  simpl. now rewrite Z.eqb_refl.
Qed.

Lemma load_memmove_in_apart l blk p n q :
  q + sizeof_INPUT_RECORD * Z.of_nat n <= p
  \/ p + sizeof_INPUT_RECORD * Z.of_nat (length l) <= q ->
  load (memmove_in p l blk) q n = load blk q n.
Proof.
  intros H. apply load_ext. intros a Ha.
  apply cell_memmove_in_outside. lia.
Qed.

Lemma load_count blk p q n m : p = q -> n = m -> load blk p n = load blk q m.
Proof. now intros -> ->. Qed.

Lemma load_none blk p n : n = O -> load blk p n = [].
Proof. now intros ->. Qed.

Lemma load_app blk n m : forall p,
  load blk p (n + m)
  = load blk p n ++ load blk (p + sizeof_INPUT_RECORD * Z.of_nat n) m.
Proof.
  induction n as [|n IH]; intros p.
  - cbn [Nat.add load app]. apply load_count; zl.
  - change (load blk p (S n + m))
      with (cell blk p :: load blk (p + sizeof_INPUT_RECORD) (n + m)).
    rewrite IH. cbn [load app]. do 2 f_equal. apply load_count; zl.
Qed.

Lemma firstn_load blk k : forall n p,
  firstn k (load blk p n) = load blk p (Nat.min k n).
Proof.
  induction k as [|k IH]; intros [|n] p; simpl; try reflexivity.
  now rewrite IH.
Qed.

Lemma skipn_load blk k : forall n p,
  skipn k (load blk p n)
  = load blk (p + sizeof_INPUT_RECORD * Z.of_nat k) (n - k).
Proof.
  induction k as [|k IH]; intros n p.
  - rewrite skipn_O. apply load_count; lia.
  - destruct n as [|n]; [reflexivity|].
    change (skipn (S k) (load blk p (S n)))
      with (skipn k (load blk (p + sizeof_INPUT_RECORD) n)).
    rewrite IH. apply load_count; zl.
Qed.

Lemma firstn_skipn_add {A} (l : list A) : forall a b,
  firstn a l ++ firstn b (skipn a l) = firstn (a + b) l.
Proof.
  induction l as [|x l IH]; intros [|a] b; simpl;
    rewrite ?firstn_nil; try reflexivity.
  now rewrite IH.
Qed.

(** ** Tactics for the buffer routines *)

Ltac proj :=
  cbn [In Out First Last InputBuffer InputBufferSize InputMode InputWaitEvent
       set_In set_Out set_InputBuffer set_InputWaitEvent set_InputMode
       rdStatus rdBuffer rdEventsRead rdResetWaitEvent rdInfo
       wrStatus wrEventsWritten wrSetWaitEvent wrInfo andb negb orb] in *.

(** Rewrite the test [c] of the goal into the truth value the context
    gives it, innermost tests first. *)
Ltac decide_bool c :=
  lazymatch c with
  | context [if ?d then _ else _] => decide_bool d
  | negb ?d => decide_bool d
  | ?d && ?e => first [ decide_bool d | decide_bool e ]
  | ?a >? ?b => rewrite (Z.gtb_ltb a b)
  | ?a <? ?b =>
      first [ rewrite (proj2 (Z.ltb_lt a b)) by zd
            | rewrite (proj2 (Z.ltb_ge a b)) by zd ]
  | ?a <=? ?b =>
      first [ rewrite (proj2 (Z.leb_le a b)) by zd
            | rewrite (proj2 (Z.leb_gt a b)) by zd ]
  | ?a =? ?b =>
      first [ rewrite (proj2 (Z.eqb_eq a b)) by zd
            | rewrite (proj2 (Z.eqb_neq a b)) by zd ]
  end.

Ltac settle :=
  repeat (proj;
          match goal with
          | |- context [if ?c then _ else _] => decide_bool c
          end);
  proj.

Ltac loads :=
  repeat first [ rewrite firstn_app | rewrite skipn_app | rewrite firstn_load
               | rewrite skipn_load | rewrite load_length ].

Ltac load_zero :=
  repeat match goal with
  | |- context [load ?b ?p ?n] => rewrite (load_none b p n) by zd
  end.

Ltac ldone :=
  loads; load_zero; cbn [app]; rewrite ?app_nil_r;
  first [ reflexivity
        | apply load_count; zd
        | apply f_equal2; apply load_count; zd ].


Lemma contents_index this i o :
  In this = First this + sizeof_INPUT_RECORD * i ->
  Out this = First this + sizeof_INPUT_RECORD * o ->
  Last this = First this + sizeof_INPUT_RECORD * (InputBufferSize this + 1) ->
  contents this
  = if i <? o
    then load (InputBuffer this) (Out this)
           (Z.to_nat (InputBufferSize this + 1 - o))
         ++ load (InputBuffer this) (First this) (Z.to_nat i)
    else load (InputBuffer this) (Out this) (Z.to_nat (i - o)).
Proof.
  intros HI HO HL. unfold contents.
  destruct (Z.ltb_spec i o); settle; ldone.
Qed.

Ltac wf_with i o :=
  exists i, o; proj; rewrite ?base_memmove_in;
  repeat split; try assumption; zd.

(** The queue of the buffer in the goal whose cursors are at the slots
    [i] and [o]. *)
Ltac queue_at i o :=
  rewrite (contents_index _ i o) by (proj; first [assumption | zd]);
  proj.

(** Discharge the premises of a lemma instance by arithmetic. *)
Ltac premises K :=
  repeat match type of K with
  | ?P -> _ =>
      let HP := fresh in
      assert (HP : P)
        by first [ assumption | reflexivity | zd
                 | left; repeat split; first [reflexivity | intros; zd]
                 | right; zd ];
      specialize (K HP); clear HP
  end.

Section Proofs.
Context {host : Host}.

Lemma ReadBuffer_unicode Length Peek this :
  wf this -> In this <> Out this ->
  0 <= Length -> Length * sizeof_INPUT_RECORD <= ULONG_MAX ->
  let r := ReadBuffer Length Peek false true this in
  rdStatus r = STATUS_SUCCESS
  /\ rdBuffer r = firstn (Z.to_nat Length) (contents this)
  /\ rdEventsRead r = Z.of_nat (length (rdBuffer r))
  /\ (Peek = true -> rdInfo r = this)
  /\ (Peek = false ->
      wf (rdInfo r)
      /\ contents (rdInfo r) = skipn (Z.to_nat Length) (contents this)
      /\ rdInfo r = set_Out (Out (rdInfo r)) this).
Proof.
  intros (i & o & HF & HL & Hcap & Hsz & HI & Hi & HO & Ho) Hne HLen HLsz.
  rewrite (contents_index this i o HI HO HL).
  assert (Hio : i < o \/ o < i) by zl.
  assert (Hcase :
    (o < i /\ (Length < i - o \/ i - o <= Length))
    \/ (i < o /\ (Length < InputBufferSize this + 1 - o
                  \/ Length = InputBufferSize this + 1 - o
                  \/ (InputBufferSize this + 1 - o < Length
                      /\ (Length - (InputBufferSize this + 1 - o) < i
                          \/ i <= Length - (InputBufferSize this + 1 - o))))))
    by lia.
  destruct Peek;
    unfold ReadBuffer, TransferSegment, readDone; proj.
  - (* a peek leaves the buffer as it is *)
    destruct Hcase as [[? [?|?]]|[? [?|[?|[? [?|?]]]]]];
      settle;
      (split; [reflexivity|]);
      (split; [ldone|]);
      (split; [rewrite ?length_app, !load_length; zd|]);
      (split; [reflexivity|discriminate]).
  - destruct Hcase as [[? [?|?]]|[? [?|[?|[? [?|?]]]]]];
      settle;
      (split; [reflexivity|]);
      (split; [ldone|]);
      (split; [rewrite ?length_app, !load_length; zd|]);
      (split; [discriminate|intros _]);
      (split; [|split; [|reflexivity]]).
    + wf_with i (o + Length).
    + queue_at i (o + Length). settle. ldone.
    + wf_with i i.
    + queue_at i i. settle. ldone.
    + wf_with i (o + Length).
    + queue_at i (o + Length). settle. ldone.
    + wf_with i 0.
    + queue_at i 0. settle. ldone.
    + wf_with i (Length - (InputBufferSize this + 1 - o)).
    + queue_at i (Length - (InputBufferSize this + 1 - o)). settle. ldone.
    + wf_with i i.
    + queue_at i i. settle. ldone.
Qed.
Lemma ready_events_contents this :
  wf this -> GetNumberOfReadyEvents this = Z.of_nat (length (contents this)).
Proof.
  intros (i & o & HF & HL & Hcap & Hsz & HI & Hi & HO & Ho).
  rewrite (contents_index this i o HI HO HL).
  unfold GetNumberOfReadyEvents.
  destruct (Z.lt_ge_cases i o); settle;
    rewrite ?length_app, !load_length; zd.
Qed.

Lemma contents_bound this :
  wf this -> Z.of_nat (length (contents this)) <= InputBufferSize this.
Proof.
  intros (i & o & HF & HL & Hcap & Hsz & HI & Hi & HO & Ho).
  rewrite (contents_index this i o HI HO HL).
  destruct (Z.lt_ge_cases i o); settle;
    rewrite ?length_app, !load_length; zd.
Qed.

Lemma empty_contents this :
  wf this -> (In this = Out this <-> contents this = []).
Proof.
  intros (i & o & HF & HL & Hcap & Hsz & HI & Hi & HO & Ho).
  rewrite (contents_index this i o HI HO HL).
  destruct (Z.lt_ge_cases i o); settle; split; intros E.
  - zd.
  - apply (f_equal (@length _)) in E.
    rewrite length_app, !load_length in E. simpl in E. zd.
  - apply load_none. zd.
  - apply (f_equal (@length _)) in E.
    rewrite load_length in E. simpl in E. zd.
Qed.

Lemma ready_events_positive this :
  wf this -> (0 < GetNumberOfReadyEvents this <-> In this <> Out this).
Proof.
  intros Hwf. rewrite (ready_events_contents this Hwf), (empty_contents this Hwf).
  destruct (contents this); simpl; split; intros; try lia; congruence.
Qed.

(** A stream read whose next record is a key event hands out that one
    record and steps [Out] past it, whatever [Peek] says. *)
Lemma ReadBuffer_stream_key Length Peek Unicode this :
  wf this -> In this <> Out this ->
  isKeyEvent (cell (InputBuffer this) (Out this)) = true ->
  let r := ReadBuffer Length Peek true Unicode this in
  rdStatus r = STATUS_SUCCESS
  /\ rdBuffer r = [cell (InputBuffer this) (Out this)]
  /\ rdEventsRead r = 1
  /\ wf (rdInfo r)
  /\ contents this = cell (InputBuffer this) (Out this) :: contents (rdInfo r)
  /\ rdInfo r = set_Out (Out (rdInfo r)) this
  /\ Out (rdInfo r) <> Out this.
Proof.
  intros (i & o & HF & HL & Hcap & Hsz & HI & Hi & HO & Ho) Hne Hkey.
  unfold ReadBuffer, readDone. rewrite Hkey. proj.
  rewrite (contents_index this i o HI HO HL).
  assert (Hcase : o < i \/ (i < o /\ (o < InputBufferSize this \/ o = InputBufferSize this))) by zl.
  destruct Hcase as [?|[? [?|?]]]; settle;
    (split; [reflexivity|]); (split; [reflexivity|]); (split; [reflexivity|]).
  - split; [wf_with i (o + 1)|]. split; [|split; [reflexivity|zl]].
    queue_at i (o + 1). settle.
    replace (Z.to_nat (i - o)) with (S (Z.to_nat (i - (o + 1)))) by zl.
    reflexivity.
  - split; [wf_with i (o + 1)|]. split; [|split; [reflexivity|zl]].
    queue_at i (o + 1). settle.
    replace (Z.to_nat (InputBufferSize this + 1 - o))
      with (S (Z.to_nat (InputBufferSize this + 1 - (o + 1)))) by zl.
    reflexivity.
  - split; [wf_with i 0|]. split; [|split; [reflexivity|zl]].
    queue_at i 0. settle.
    replace (Z.to_nat (InputBufferSize this + 1 - o)) with 1%nat by zl.
    simpl. f_equal. ldone.
Qed.


Lemma ReadBuffer_status Length Peek StreamRead Unicode this :
  rdStatus (ReadBuffer Length Peek StreamRead Unicode this) = STATUS_SUCCESS.
Proof.
  unfold ReadBuffer, readDone.
  repeat match goal with
  | |- rdStatus (match ?x with _ => _ end) = _ => destruct x
  end; reflexivity.
Qed.

(** Whether a resize succeeds is decided by the size asked for and the
    allocator alone. *)
Lemma SetInputBufferSize_status Size this1 this2 :
  fst (SetInputBufferSize Size this1) = fst (SetInputBufferSize Size this2).
Proof.
  unfold SetInputBufferSize.
  destruct (SizeTMult _ _); [|reflexivity].
  destruct (operator_new _); [|reflexivity].
  rewrite !ReadBuffer_status. reflexivity.
Qed.

Lemma SetInputBufferSize_failure Size this :
  NT_SUCCESS (fst (SetInputBufferSize Size this)) = false ->
  snd (SetInputBufferSize Size this) = this
  /\ (fst (SetInputBufferSize Size this) = STATUS_INTEGER_OVERFLOW
      \/ fst (SetInputBufferSize Size this) = STATUS_NO_MEMORY).
Proof.
  unfold SetInputBufferSize.
  destruct (SizeTMult _ _); [|now auto].
  destruct (operator_new _); [|now auto].
  rewrite ReadBuffer_status, NT_SUCCESS_ok. discriminate.
Qed.

(** Growing a buffer that holds records keeps the records, in order, at
    the front of the new store. *)
Lemma SetInputBufferSize_success Size this :
  wf this -> In this <> Out this ->
  InputBufferSize this < Size ->
  sizeof_INPUT_RECORD * (Size + 1) <= ULONG_MAX ->
  NT_SUCCESS (fst (SetInputBufferSize Size this)) = true ->
  let this' := snd (SetInputBufferSize Size this) in
  fst (SetInputBufferSize Size this) = STATUS_SUCCESS
  /\ wf this'
  /\ contents this' = contents this
  /\ InputBufferSize this' = Size
  /\ Out this' = First this'
  /\ In this' = First this'
                + sizeof_INPUT_RECORD * Z.of_nat (length (contents this))
  /\ contents this'
     = load (InputBuffer this') (First this') (length (contents this))
  /\ InputWaitEvent this' = InputWaitEvent this
  /\ InputMode this' = InputMode this.
Proof.
  intros Hwf Hne Hcap HSize.
  pose proof Hwf as (i & o & HF & HL & Hcap1 & Hsz & HI & Hi & HO & Ho).
  unfold SetInputBufferSize.
  destruct (SizeTMult _ _) as [BufferSize|] eqn:HB; [|discriminate].
  destruct (operator_new _) as [NewBuffer|]; [|discriminate].
  assert (HBS : BufferSize = sizeof_INPUT_RECORD * (Size + 1)).
  { unfold SizeTMult in HB.
    destruct (_ <=? _); [|discriminate].
    assert (E : BufferSize = sizeof_INPUT_RECORD * ULONG (Size + 1))
      by congruence.
    rewrite E. zd. }
  pose proof (contents_bound this Hwf) as Hbound.
  destruct (ReadBuffer_unicode Size true this Hwf Hne) as (Hs & Hbuf & Hn & Hsame & _);
    [zl|zl|].
  specialize (Hsame eq_refl).
  rewrite firstn_all2 in Hbuf by zl.
  rewrite Hs, Hsame, Hn, Hbuf, NT_SUCCESS_ok. cbn [negb fst snd]. intros _.
  split; [reflexivity|]. proj. rewrite !base_memmove_in.
  split; [wf_with (Z.of_nat (length (contents this))) 0|].
  split.
  { queue_at (Z.of_nat (length (contents this))) 0.
    settle. rewrite Z.sub_0_r, Nat2Z.id. apply load_memmove_in_same. }
  split; [reflexivity|]. split; [reflexivity|]. split; [reflexivity|].
  split; [|split; reflexivity].
  queue_at (Z.of_nat (length (contents this))) 0.
  settle. rewrite Z.sub_0_r, Nat2Z.id. reflexivity.
Qed.
(** [CopyIn] of [n] records into free slots appends them to the queue. *)
Lemma CopyIn_spec wrap TransferLength n Buffer BLB EW SW this i o :
  wf this ->
  In this = First this + sizeof_INPUT_RECORD * i ->
  Out this = First this + sizeof_INPUT_RECORD * o ->
  TransferLength = sizeof_INPUT_RECORD * Z.of_nat n ->
  (n <= length Buffer)%nat ->
  (o <= i /\ wrap = true /\ i + Z.of_nat n <= InputBufferSize this + 1
   /\ (o = 0 -> i + Z.of_nat n <= InputBufferSize this))
  \/ (i < o /\ i + Z.of_nat n < o) ->
  0 <= EW -> EW + Z.of_nat n <= ULONG_MAX ->
  TransferLength <= BLB <= ULONG_MAX ->
  exists this',
    CopyIn wrap TransferLength Buffer BLB EW SW this
    = Continue (skipn n Buffer) (BLB - TransferLength) (EW + Z.of_nat n) SW
        this'
    /\ wf this'
    /\ contents this' = contents this ++ firstn n Buffer
    /\ InputBufferSize this' = InputBufferSize this
    /\ InputWaitEvent this' = InputWaitEvent this
    /\ InputMode this' = InputMode this.
Proof.
  intros Hwf HI HO HT Hn Hlay HEW HEWn HBLB.
  pose proof Hwf as (i' & o' & HF & HL & Hcap & Hsz & HI' & Hi & HO' & Ho).
  assert (i' = i) by zl. assert (o' = o) by zl. subst i' o'. clear HI' HO'.
  unfold CopyIn. 
  replace (Z.to_nat (TransferLength / sizeof_INPUT_RECORD)) with n by zd.
  replace (TransferLength / sizeof_INPUT_RECORD) with (Z.of_nat n) by zd.
  rewrite (ULONG_small (EW + _)), (ULONG_small (BLB - _)) by zd.
  eexists. split; [reflexivity|].
  rewrite (contents_index this i o HI HO HL).
  assert (Hlen : length (firstn n Buffer) = n) by (apply firstn_length_le; lia).
  set (l := firstn n Buffer) in *. clearbody l.
  assert (Hcase : (o <= i /\ wrap = true /\ i + Z.of_nat n <= InputBufferSize this
                   /\ (o = 0 -> i + Z.of_nat n <= InputBufferSize this))
                  \/ (o <= i /\ wrap = true /\ 0 < o
                      /\ i + Z.of_nat n = InputBufferSize this + 1)
                  \/ (i < o /\ i + Z.of_nat n < o)).
  { destruct Hlay as [(? & ? & ? & ?)|?]; [|now auto].
    destruct (Z.eq_dec (i + Z.of_nat n) (InputBufferSize this + 1));
      [right; left|left]; repeat split; auto; lia. }
  destruct Hcase as [(? & -> & ? & ?)|[(? & -> & ? & ?)|(? & ?)]]; settle.
  - split; [wf_with (i + Z.of_nat n) o|].
    split; [|repeat split].
    queue_at (i + Z.of_nat n) o. settle.
    replace (Z.to_nat (i + Z.of_nat n - o)) with (Z.to_nat (i - o) + n)%nat by zl.
    rewrite load_app. f_equal.
    + apply load_memmove_in_apart. rewrite Hlen. zl.
    + replace (Out this + _) with (In this) by zl.
      rewrite <- Hlen. apply load_memmove_in_same.
  - split; [wf_with 0 o|].
    split; [|repeat split].
    queue_at 0 o. settle.
    rewrite (load_none _ (First this)), app_nil_r by zl.
    replace (Z.to_nat (InputBufferSize this + 1 - o)) with (Z.to_nat (i - o) + n)%nat by zl.
    rewrite load_app. f_equal.
    + apply load_memmove_in_apart. rewrite Hlen. zl.
    + replace (Out this + _) with (In this) by zl.
      rewrite <- Hlen. apply load_memmove_in_same.
  - destruct wrap; settle.
    all: (split; [wf_with (i + Z.of_nat n) o|]);
      (split; [|repeat split]);
      queue_at (i + Z.of_nat n) o; settle;
      rewrite <- app_assoc; f_equal;
      [ apply load_memmove_in_apart; rewrite Hlen; zl
      | replace (Z.to_nat (i + Z.of_nat n)) with (Z.to_nat i + n)%nat by zl;
        rewrite load_app; f_equal;
        [ apply load_memmove_in_apart; rewrite Hlen; zl
        | replace (First this + _) with (In this) by zl;
          rewrite <- Hlen; apply load_memmove_in_same ] ].
Qed.


(** What one [CopyIn] does to the loop of [WriteBuffer], in terms of the
    records [Buffer0] the caller passed and the queue [q0] it found. *)
Lemma CopyIn_loop wrap TransferLength n Length Buffer0 q0 BLB EW SW this i o :
  wf this ->
  In this = First this + sizeof_INPUT_RECORD * i ->
  Out this = First this + sizeof_INPUT_RECORD * o ->
  TransferLength = sizeof_INPUT_RECORD * n ->
  0 <= n <= Length - EW ->
  Z.of_nat (length Buffer0) = Length ->
  Length * sizeof_INPUT_RECORD <= ULONG_MAX ->
  (o <= i /\ wrap = true /\ i + n <= InputBufferSize this + 1
   /\ (o = 0 -> i + n <= InputBufferSize this))
  \/ (i < o /\ i + n < o) ->
  0 <= EW ->
  BLB = sizeof_INPUT_RECORD * (Length - EW) ->
  contents this = q0 ++ firstn (Z.to_nat EW) Buffer0 ->
  match CopyIn wrap TransferLength (skipn (Z.to_nat EW) Buffer0) BLB EW SW
          this with
  | Return _ => False
  | Continue Buffer' BLB' EW' SW' this' =>
      EW' = EW + n
      /\ wf this'
      /\ BLB' = sizeof_INPUT_RECORD * (Length - EW')
      /\ Buffer' = skipn (Z.to_nat EW') Buffer0
      /\ contents this' = q0 ++ firstn (Z.to_nat EW') Buffer0
      /\ SW' = SW
      /\ InputBufferSize this' = InputBufferSize this
      /\ InputWaitEvent this' = InputWaitEvent this
      /\ InputMode this' = InputMode this
  end.
Proof.
  intros Hwf HI HO HT Hn HB0 HLsz Hlay HEW HBLB Hq.
  destruct (CopyIn_spec wrap TransferLength (Z.to_nat n)
              (skipn (Z.to_nat EW) Buffer0) BLB EW SW this i o Hwf HI HO)
    as (this' & E & Hwf' & Hq' & Hcap' & Hev' & Hmode');
    try zl.
  - rewrite length_skipn. zl.
  - rewrite Z2Nat.id by zl. exact Hlay.
  - rewrite E. rewrite Z2Nat.id by zl.
    split; [reflexivity|]. split; [exact Hwf'|]. split; [zl|].
    split; [rewrite skipn_skipn; f_equal; zl|].
    split; [|now auto].
    rewrite Hq', Hq, <- app_assoc, firstn_skipn_add. do 2 f_equal. zl.
Qed.
Lemma WriteStep_spec Length Buffer0 q0 Buffer BLB EW SW this :
  0 <= INPUT_BUFFER_SIZE_INCREMENT ->
  Z.of_nat (length Buffer0) = Length ->
  Length * sizeof_INPUT_RECORD <= ULONG_MAX ->
  wf this -> 0 <= EW < Length ->
  BLB = sizeof_INPUT_RECORD * (Length - EW) ->
  Buffer = skipn (Z.to_nat EW) Buffer0 ->
  contents this = q0 ++ firstn (Z.to_nat EW) Buffer0 ->
  growth_fits Length this ->
  match WriteStep Length Buffer BLB EW SW this with
  | Return r =>
      r = writeReturn (fst (GrowInputBuffer Length this)) EW
            (if Out this =? In this then true else SW) this
      /\ NT_SUCCESS (fst (GrowInputBuffer Length this)) = false
      /\ Z.of_nat (length (contents this)) = InputBufferSize this
  | Continue Buffer' BLB' EW' SW' this' =>
      EW < EW' <= Length
      /\ wf this'
      /\ BLB' = sizeof_INPUT_RECORD * (Length - EW')
      /\ Buffer' = skipn (Z.to_nat EW') Buffer0
      /\ contents this' = q0 ++ firstn (Z.to_nat EW') Buffer0
      /\ SW' = (if Out this =? In this then true else SW)
      /\ InputWaitEvent this' = InputWaitEvent this
      /\ InputMode this' = InputMode this
      /\ (InputBufferSize this' = InputBufferSize this
          \/ (EW' = Length
              /\ NT_SUCCESS (fst (GrowInputBuffer Length this)) = true
              /\ InputBufferSize this'
                 = InputBufferSize this + Length
                   + INPUT_BUFFER_SIZE_INCREMENT))
  end.
Proof.
  intros Hinc HB0 HLsz Hwf HEW HBLB HBuf Hq [Hsize Hgrown].
  pose proof Hwf as (i & o & HF & HL & Hcap & Hsz & HI & Hi & HO & Ho).
  pose proof (contents_bound this Hwf) as Hbound.
  pose proof (ready_events_contents this Hwf) as Hcount.
  assert (Hlenq : (i < o -> Z.of_nat (length (contents this))
                           = InputBufferSize this + 1 - o + i)
                  /\ (o <= i -> Z.of_nat (length (contents this)) = i - o)).
  { rewrite (contents_index this i o HI HO HL).
    destruct (Z.ltb_spec i o); rewrite ?length_app, !load_length; zl. }
  subst Buffer.
  assert (Hcase :
    (i < o /\ (Length - EW <= o - i - 1 \/ o - i - 1 < Length - EW))
    \/ (o <= i /\ (Length - EW < InputBufferSize this + 1 - i
                   \/ (InputBufferSize this + 1 - i <= Length - EW
                       /\ ((o = 0 /\ i = InputBufferSize this)
                           \/ (o = 0 /\ i < InputBufferSize this)
                           \/ 0 < o))))) by lia.
  unfold WriteStep, OutPath.
  destruct Hcase as [[Hio [Hfit|Hgrow]]|[Hoi [Hfit|[Hend [[Ho0 Hfull]|[[Ho0 Hroom]|Ho0]]]]]].
  - (* in < out, the request fits *)
    settle.
    pose proof (CopyIn_loop false BLB (Length - EW) Length Buffer0 q0 BLB EW SW
                  this i o Hwf HI HO) as K.
    premises K; revert K;
    destruct (CopyIn _ _ _ _ _ _ _); [contradiction|];
    intros (-> & ? & ? & ? & ? & ? & ? & ? & ?); repeat split; auto; zd.
  - (* in < out, the buffer has to grow *)
    settle.
    destruct (GrowInputBuffer Length this) as [Status this1] eqn:HG.
    cbn [fst].
    assert (HSt0 : Status = fst (GrowInputBuffer Length this)) by now rewrite HG.
    pose proof HSt0 as HSt.
    assert (Hth : this1 = snd (GrowInputBuffer Length this)) by now rewrite HG.
    unfold GrowInputBuffer in HSt, Hth.
    rewrite ULONG_small in HSt, Hth by zl.
    destruct (NT_SUCCESS Status) eqn:HS; cbn [negb].
    + (* grown *)
      pose proof (Hgrown HS) as HSg.
      pose proof HS as HS0. rewrite HSt in HS.
      assert (Hne : In this <> Out this) by zl.
      assert (Hbig : InputBufferSize this
                     < InputBufferSize this + Length + INPUT_BUFFER_SIZE_INCREMENT) by zl.
      destruct (SetInputBufferSize_success
                  (InputBufferSize this + Length + INPUT_BUFFER_SIZE_INCREMENT)
                  this Hwf Hne Hbig HSg HS)
        as (_ & Hwf1 & Hq1 & Hcap1 & HO1 & HI1 & _ & Hev1 & Hmode1).
      rewrite <- Hth in *. clear HG.
      assert (HL1 : Last this1 = First this1
                    + sizeof_INPUT_RECORD * (InputBufferSize this1 + 1))
        by (destruct Hwf1 as (? & ? & ? & ? & _); assumption).
      rewrite Hq in Hq1.
      settle.
      pose proof (CopyIn_loop true BLB (Length - EW) Length Buffer0 q0 BLB EW
                    SW this1 (Z.of_nat (length (contents this))) 0
                    Hwf1 HI1 ltac:(zl)) as K.
      premises K; revert K;
      destruct (CopyIn _ _ _ _ _ _ _); [contradiction|];
      intros (-> & ? & ? & ? & ? & ? & ? & ? & ?); repeat split; auto; try zd;
      try congruence.
    + (* no memory *)
      pose proof HS as HS0. rewrite HSt in HS.
      destruct (SetInputBufferSize_failure _ this HS) as [Hsame _].
      rewrite <- Hth in Hsame. clear Hth HG. subst this1.
      destruct (Z.eq_dec (o - i) 1) as [Hone|Hmore]; settle.
      * repeat split; try assumption; try reflexivity; zl.
      * pose proof (CopyIn_loop false (ULONG (Out this - In this - sizeof_INPUT_RECORD))
                      (o - i - 1) Length Buffer0 q0 BLB EW SW
                      this i o Hwf HI HO) as K.
        premises K; revert K;
        destruct (CopyIn _ _ _ _ _ _ _); [contradiction|];
        intros (-> & ? & ? & ? & ? & ? & ? & ? & ?); repeat split; auto; zd.
  - settle. 
    pose proof (CopyIn_loop true BLB (Length - EW) Length Buffer0 q0 BLB EW
                  (if Out this =? In this then true else SW)
                  this i o Hwf HI HO) as K.
    premises K; revert K;
    destruct (CopyIn _ _ _ _ _ _ _); [contradiction|];
    intros (-> & ? & ? & ? & ? & ? & ? & ? & ?); repeat split; auto; zd.
  - settle.
    destruct (GrowInputBuffer Length this) as [Status this1] eqn:HG.
    cbn [fst].
    assert (HSt0 : Status = fst (GrowInputBuffer Length this)) by now rewrite HG.
    pose proof HSt0 as HSt.
    assert (Hth : this1 = snd (GrowInputBuffer Length this)) by now rewrite HG.
    unfold GrowInputBuffer in HSt, Hth.
    rewrite ULONG_small in HSt, Hth by zl.
    destruct (NT_SUCCESS Status) eqn:HS; cbn [negb].
    + (* grown *)
      pose proof (Hgrown HS) as HSg.
      pose proof HS as HS0. rewrite HSt in HS.
      assert (Hne : In this <> Out this) by zl.
      assert (Hbig : InputBufferSize this
                     < InputBufferSize this + Length + INPUT_BUFFER_SIZE_INCREMENT) by zl.
      destruct (SetInputBufferSize_success
                  (InputBufferSize this + Length + INPUT_BUFFER_SIZE_INCREMENT)
                  this Hwf Hne Hbig HSg HS)
        as (_ & Hwf1 & Hq1 & Hcap1 & HO1 & HI1 & _ & Hev1 & Hmode1).
      rewrite <- Hth in *. clear HG.
      assert (HL1 : Last this1 = First this1
                    + sizeof_INPUT_RECORD * (InputBufferSize this1 + 1))
        by (destruct Hwf1 as (? & ? & ? & ? & _); assumption).
      rewrite Hq in Hq1.
      settle.
      pose proof (CopyIn_loop true BLB (Length - EW) Length Buffer0 q0 BLB EW
                    SW this1 (Z.of_nat (length (contents this))) 0
                    Hwf1 HI1 ltac:(zl)) as K.
      premises K; revert K;
      destruct (CopyIn _ _ _ _ _ _ _); [contradiction|];
      intros (-> & ? & ? & ? & ? & ? & ? & ? & ?); repeat split; auto; try zd;
      try congruence.
    + (* no memory *)
      pose proof HS as HS0. rewrite HSt in HS.
      destruct (SetInputBufferSize_failure _ this HS) as [Hsame _].
      rewrite <- Hth in Hsame. clear Hth HG. subst this1.
      repeat split; try assumption; try reflexivity; zl.
  - settle.
    pose proof (CopyIn_loop true (ULONG (ULONG (Last this - In this) - sizeof_INPUT_RECORD))
                  (InputBufferSize this - i) Length Buffer0 q0 BLB EW
                  (if Out this =? In this then true else SW)
                  this i o Hwf HI HO) as K.
    premises K; revert K;
    destruct (CopyIn _ _ _ _ _ _ _); [contradiction|];
    intros (-> & ? & ? & ? & ? & ? & ? & ? & ?); repeat split; auto; zd.
  - settle.
    pose proof (CopyIn_loop true (ULONG (Last this - In this))
                  (InputBufferSize this + 1 - i) Length Buffer0 q0 BLB EW
                  (if Out this =? In this then true else SW)
                  this i o Hwf HI HO) as K.
    premises K; revert K;
    destruct (CopyIn _ _ _ _ _ _ _); [contradiction|];
    intros (-> & ? & ? & ? & ? & ? & ? & ? & ?); repeat split; auto; zd.
Qed.
Lemma GrowInputBuffer_status Length this1 this2 :
  InputBufferSize this1 = InputBufferSize this2 ->
  fst (GrowInputBuffer Length this1) = fst (GrowInputBuffer Length this2).
Proof.
  intros E. unfold GrowInputBuffer. rewrite E.
  apply SetInputBufferSize_status.
Qed.

Lemma WriteLoop_done fuel Length Buffer BLB EW SW this :
  Length <= EW ->
  WriteLoop fuel Length Buffer BLB EW SW this
  = Some (writeReturn STATUS_SUCCESS EW SW this).
Proof.
  intros H. destruct fuel; simpl; settle; reflexivity.
Qed.

Lemma WriteLoop_spec Length Buffer0 q0 :
  0 <= INPUT_BUFFER_SIZE_INCREMENT ->
  Z.of_nat (length Buffer0) = Length ->
  Length * sizeof_INPUT_RECORD <= ULONG_MAX ->
  forall fuel Buffer BLB EW SW this,
    wf this -> 0 <= EW <= Length ->
    BLB = sizeof_INPUT_RECORD * (Length - EW) ->
    Buffer = skipn (Z.to_nat EW) Buffer0 ->
    contents this = q0 ++ firstn (Z.to_nat EW) Buffer0 ->
    (EW < Length -> growth_fits Length this) ->
    Length - EW <= Z.of_nat fuel ->
    exists r,
      WriteLoop fuel Length Buffer BLB EW SW this = Some r
      /\ WriteLoop_post Length Buffer0 q0 EW SW this r.
Proof.
  intros Hinc HB0 HLsz.
  induction fuel as [|fuel IH];
    intros Buffer BLB EW SW this Hwf HEW HBLB HBuf Hq Hnoov Hfuel.
  - rewrite WriteLoop_done by lia. eexists. split; [reflexivity|].
    unfold WriteLoop_post, writeReturn; proj. settle.
    repeat split; auto; try zl.
  - destruct (Z.lt_ge_cases EW Length) as [Hlt|Hge].
    2:{ rewrite WriteLoop_done by lia. eexists. split; [reflexivity|].
        unfold WriteLoop_post, writeReturn; proj. settle.
        repeat split; auto; try zl. }
    cbn [WriteLoop]. settle.
    pose proof (WriteStep_spec Length Buffer0 q0 Buffer BLB EW SW this
                  Hinc HB0 HLsz Hwf ltac:(lia) HBLB HBuf Hq (Hnoov Hlt)) as K.
    destruct (WriteStep _ _ _ _ _ _) as [r|B' BLB' EW' SW' this'].
    + destruct K as (-> & Hfail & Hfull).
      eexists. split; [reflexivity|].
      unfold WriteLoop_post, writeReturn; proj. settle.
      repeat split; auto; try zl.
    + destruct K as (HEW' & Hwf' & HBLB' & HB' & Hq' & HSW' & Hev' & Hmode' & Hcap').
      assert (Hne' : In this' <> Out this').
      { rewrite (empty_contents this' Hwf'), Hq'.
        intros E. apply app_eq_nil in E. destruct E as [_ E].
        apply (f_equal (@length _)) in E.
        rewrite firstn_length_le in E by zl. simpl in E. zl. }
      destruct (Z.lt_ge_cases EW' Length) as [Hlt'|Hge'].
      * assert (Hc : InputBufferSize this' = InputBufferSize this)
          by (destruct Hcap' as [?|[? _]]; [assumption|zl]).
        destruct (IH B' BLB' EW' SW' this' Hwf' ltac:(lia) HBLB' HB' Hq')
          as (r & Hr & Hpost);
          [intros _; destruct (Hnoov Hlt) as [? ?]; split;
           rewrite ?(GrowInputBuffer_status Length this' this Hc), Hc;
           assumption
          |zl|].
        exists r. split; [exact Hr|].
        destruct Hpost as (P1 & P2 & P3 & P4 & P5 & P6 & P7 & P8).
        rewrite (GrowInputBuffer_status Length this' this Hc) in P7, P8.
        unfold WriteLoop_post. rewrite P6, HSW'. settle.
        repeat split; try congruence; try zl.
      * rewrite WriteLoop_done by lia. eexists. split; [reflexivity|].
        unfold WriteLoop_post, writeReturn; proj. settle.
        repeat split; auto; try zl.
        destruct Hcap' as [?|(? & ? & ?)]; auto.
Qed.
Lemma TranslateRecords_bounds blk Length : forall Old q BLB,
  0 <= BLB ->
  (snd (TranslateRecords blk Length q BLB Old) <= Old)%nat
  /\ 0 <= snd (fst (TranslateRecords blk Length q BLB Old)).
Proof.
  induction Old as [|Old IH]; intros q BLB HB; simpl.
  - split; [lia|assumption].
  - destruct (BLB <? Length); simpl; [|split; [lia|assumption]].
    specialize (IH (q + sizeof_INPUT_RECORD)
                  (ULONG (BLB + slotsOf (cell blk q)))
                  (ULONG_nonneg _)).
    destruct (TranslateRecords _ _ _ _ _) as [[rs B] O']. simpl in *. lia.
Qed.

Lemma ReadBuffer_frame Length Peek StreamRead Unicode this :
  let r := ReadBuffer Length Peek StreamRead Unicode this in
  rdResetWaitEvent r = (Out (rdInfo r) =? In (rdInfo r))
  /\ InputWaitEvent (rdInfo r) = InputWaitEvent this
  /\ InputMode (rdInfo r) = InputMode this
  /\ In (rdInfo r) = In this
  /\ InputBuffer (rdInfo r) = InputBuffer this
  /\ InputBufferSize (rdInfo r) = InputBufferSize this.
Proof.
  unfold ReadBuffer, readDone.
  repeat match goal with
  | |- context [match ?x with _ => _ end] => destruct x
  end; proj; repeat split; reflexivity.
Qed.

Lemma ReadBuffer_stream_other Length Peek Unicode this :
  isKeyEvent (cell (InputBuffer this) (Out this)) = false ->
  ReadBuffer Length Peek true Unicode this
  = ReadBuffer Length Peek false Unicode this.
Proof. intros H. unfold ReadBuffer. rewrite H. reflexivity. Qed.

Lemma wf_Out_moved this this' :
  wf this ->
  InputBuffer this' = InputBuffer this ->
  InputBufferSize this' = InputBufferSize this ->
  First this' = First this -> In this' = In this ->
  Last this' = Last this ->
  0 <= Out this' - First this
    <= sizeof_INPUT_RECORD * InputBufferSize this ->
  (Out this' - First this) mod sizeof_INPUT_RECORD = 0 ->
  wf this'.
Proof.
  intros (i & o & HF & HL & Hcap & Hsz & HI & Hi & HO & Ho) E1 E2 E3 E4 E5 R D.
  exists i, ((Out this' - First this) / sizeof_INPUT_RECORD).
  rewrite E1, E2, E3, E4, E5. repeat split; try assumption; zd.
Qed.

(** One step through a non-Unicode read: name what the next translation
    loop returns, or settle or split the next test. *)
Ltac ansi_step :=
  first
  [ match goal with
    | |- context [if ?c then _ else _] => decide_bool c
    end
  | match goal with
    | |- context [if ?a <=? ?b then _ else _] => destruct (Z.leb_spec a b)
    | |- context [if ?a =? ?b then _ else _] => destruct (Z.eqb_spec a b)
    | |- context [if ?a <? ?b then _ else _] => destruct (Z.ltb_spec a b)
    end
  | match goal with
    | |- context [TranslateRecords ?b ?l ?q ?z ?n] =>
        let T1 := fresh "T" in
        let T2 := fresh "T" in
        let Hz := fresh in
        assert (Hz : 0 <= z) by zd;
        pose proof (TranslateRecords_bounds b l n q z Hz) as [T1 T2];
        clear Hz;
        destruct (TranslateRecords b l q z n) as [[? ?] ?];
        cbn [fst snd] in T1, T2
    end ];
  proj.

Lemma ReadBuffer_ansi_wf Length Peek this :
  wf this -> In this <> Out this ->
  0 <= Length -> Length * sizeof_INPUT_RECORD <= ULONG_MAX ->
  wf (rdInfo (ReadBuffer Length Peek false false this)).
Proof.
  intros Hwf Hne HLen HLsz.
  pose proof Hwf as (i & o & HF & HL & Hcap & Hsz & HI & Hi & HO & Ho).
  destruct Peek.
  { pose proof (ReadBuffer_frame Length true false false this) as F.
    revert F. unfold ReadBuffer, readDone, TransferSegment. proj.
    repeat match goal with
    | |- context [match ?x with _ => _ end] => destruct x
    end; proj; intros; exact Hwf. }
  assert (Hcase :
    (o < i /\ (Length < i - o \/ i - o <= Length))
    \/ (i < o /\ (Length < InputBufferSize this + 1 - o
                  \/ InputBufferSize this + 1 - o <= Length))) by zl.
  unfold ReadBuffer, TransferSegment, readDone. proj.
  destruct Hcase as [[Hoi [Hl|Hl]]|[Hio [Hl|Hl]]]; settle;
    repeat ansi_step;
    apply (wf_Out_moved this); proj; try reflexivity; try assumption; zd.
Qed.
(** Any read of a buffer that holds records leaves a buffer of the right
    shape. *)
Lemma ReadBuffer_wf Length Peek StreamRead Unicode this :
  wf this -> In this <> Out this ->
  0 <= Length -> Length * sizeof_INPUT_RECORD <= ULONG_MAX ->
  wf (rdInfo (ReadBuffer Length Peek StreamRead Unicode this)).
Proof.
  intros Hwf Hne HLen HLsz.
  assert (Hplain : wf (rdInfo (ReadBuffer Length Peek false Unicode this))).
  { destruct Unicode; [|now apply ReadBuffer_ansi_wf].
    destruct (ReadBuffer_unicode Length Peek this Hwf Hne HLen HLsz)
      as (_ & _ & _ & Hpeek & Hread).
    destruct Peek; [now rewrite Hpeek|now apply Hread]. }
  destruct StreamRead; [|exact Hplain].
  destruct (isKeyEvent (cell (InputBuffer this) (Out this))) eqn:Hkey.
  - now apply ReadBuffer_stream_key.
  - now rewrite ReadBuffer_stream_other.
Qed.

(** A non-peek Unicode read hands out the front of the queue and leaves
    the rest. *)
Lemma ReadBuffer_fifo Length StreamRead this :
  wf this -> In this <> Out this ->
  0 <= Length -> Length * sizeof_INPUT_RECORD <= ULONG_MAX ->
  let r := ReadBuffer Length false StreamRead true this in
  rdBuffer r ++ contents (rdInfo r) = contents this.
Proof.
  intros Hwf Hne HLen HLsz.
  assert (Hplain : let r := ReadBuffer Length false false true this in
                   rdBuffer r ++ contents (rdInfo r) = contents this).
  { destruct (ReadBuffer_unicode Length false this Hwf Hne HLen HLsz)
      as (_ & Hbuf & _ & _ & Hread).
    destruct (Hread eq_refl) as (_ & Hrest & _).
    cbv zeta. rewrite Hbuf, Hrest. apply firstn_skipn. }
  destruct StreamRead; [|exact Hplain].
  destruct (isKeyEvent (cell (InputBuffer this) (Out this))) eqn:Hkey.
  - destruct (ReadBuffer_stream_key Length false true this Hwf Hne Hkey)
      as (_ & Hbuf & _ & _ & Hq & _).
    cbv zeta. rewrite Hbuf, Hq. reflexivity.
  - now rewrite ReadBuffer_stream_other.
Qed.

(** A write that merges into the last record changes that record and
    nothing else. *)
Lemma Coalesce_frame Buffer Length this this' :
  Coalesce Buffer Length this = Some this' ->
  Length = 1 /\ In this <> Out this
  /\ exists r,
       this' = set_InputBuffer
                 (poke (LastInputEvent this) r (InputBuffer this)) this.
Proof.
  unfold Coalesce, CoalesceMouse, CoalesceKey.
  destruct (Z.eqb_spec Length 1); [|discriminate].
  destruct (Z.eqb_spec (Out this) (In this)); [discriminate|].
  cbn [andb negb]. intros H. split; [assumption|]. split; [congruence|].
  repeat match type of H with
  | match ?x with _ => _ end = _ => destruct x; try discriminate
  end; injection H as <-; eexists; reflexivity.
Qed.

Lemma wf_poke p r this :
  wf this -> wf (set_InputBuffer (poke p r (InputBuffer this)) this).
Proof. intros (i & o & H). exists i, o. exact H. Qed.

(** A write that reaches the append loop. *)
Lemma WriteBuffer_append Buffer Length this :
  0 <= INPUT_BUFFER_SIZE_INCREMENT ->
  wf this ->
  Z.of_nat (length Buffer) = Length ->
  Length * sizeof_INPUT_RECORD <= ULONG_MAX ->
  growth_fits Length this ->
  Coalesce Buffer Length this = None ->
  exists w,
    WriteBuffer Buffer Length this = Some w
    /\ WriteLoop_post Length Buffer (contents this) 0 false this w.
Proof.
  intros Hinc Hwf HB HLsz Hfit Hco.
  unfold WriteBuffer. rewrite Hco.
  apply (WriteLoop_spec Length Buffer (contents this) Hinc HB HLsz);
    try assumption; try reflexivity; try zd.
  - cbn [Z.to_nat firstn]. now rewrite app_nil_r.
  - auto.
Qed.

Lemma PreprocessInput_length mode : forall n InputEvent Flags,
  (length (fst (PreprocessInput mode Flags InputEvent n)) <= n)%nat.
Proof.
  induction n as [|n IH]; intros [|r rest] Flags; simpl; try lia.
  pose proof (IH rest Flags) as H0.
  assert (Hkeep : (length (fst (let '(kept, Flags0) :=
                                 PreprocessInput mode Flags rest n in
                               (r :: kept, Flags0))) <= S n)%nat).
  { destruct (PreprocessInput mode Flags rest n). simpl in *. lia. }
  destruct r as [k| | | |]; try exact Hkeep.
  destruct (bKeyDown k); [|exact Hkeep].
  destruct (_ && _); [specialize (IH rest (UnblockWriteConsole CONSOLE_OUTPUT_SUSPENDED Flags)); lia|].
  destruct (_ && _); [specialize (IH rest (Z.lor Flags CONSOLE_OUTPUT_SUSPENDED)); lia|].
  exact Hkeep.
Qed.
Lemma signal_ok_iff this :
  wf this ->
  (signal_ok this <-> (InputWaitEvent this = true <-> In this <> Out this)).
Proof.
  intros Hwf. unfold signal_ok.
  rewrite (ready_events_positive this Hwf). reflexivity.
Qed.

Lemma KeepKeys_bounds b m : forall Tmp k blk,
  0 <= k <= m ->
  exists k',
    fst (KeepKeys (b + sizeof_INPUT_RECORD * m) Tmp
           (b + sizeof_INPUT_RECORD * k) blk)
    = b + sizeof_INPUT_RECORD * k'
    /\ k <= k' <= m
    /\ base (snd (KeepKeys (b + sizeof_INPUT_RECORD * m) Tmp
                    (b + sizeof_INPUT_RECORD * k) blk))
       = base blk.
Proof.
  induction Tmp as [|r Tmp IH]; intros k blk Hk; cbn [KeepKeys].
  - exists k. repeat split; try reflexivity; lia.
  - destruct (Z.leb_spec (b + sizeof_INPUT_RECORD * m)
                (b + sizeof_INPUT_RECORD * k)).
    + exists k. repeat split; try reflexivity; lia.
    + destruct (isKeyEvent r).
      * replace (b + sizeof_INPUT_RECORD * k + sizeof_INPUT_RECORD)
          with (b + sizeof_INPUT_RECORD * (k + 1)) by zl.
        destruct (IH (k + 1) (poke (b + sizeof_INPUT_RECORD * k) r blk))
          as (k' & E & Hk' & Hb); [zl|].
        exists k'. repeat split; try exact E; try exact Hb; lia.
      * destruct (IH k blk Hk) as (k' & E & Hk' & Hb).
        exists k'. repeat split; try exact E; try exact Hb; lia.
Qed.

Lemma FlushAllButKeys_signal this :
  wf this -> signal_ok this ->
  wf (snd (FlushAllButKeys this)) /\ signal_ok (snd (FlushAllButKeys this)).
Proof.
  intros Hwf Hsig.
  pose proof Hwf as (i & o & HF & HL & Hcap & Hsz & HI & Hi & HO & Ho).
  unfold FlushAllButKeys.
  destruct (Z.eqb_spec (In this) (Out this)) as [He|Hne]; cbn [negb];
    [now split|].
  destruct (DWordMult _ _); [|now split].
  destruct (operator_new _); [|now split].
  destruct (ReadBuffer_unicode (InputBufferSize this) true this Hwf Hne)
    as (Hs & _ & _ & Hsame & _); [zl|zl|].
  rewrite Hs, (Hsame eq_refl), NT_SUCCESS_ok. cbn [negb]. proj.
  set (Tmp := firstn _ _). clearbody Tmp.
  replace (base (InputBuffer this)
           + sizeof_INPUT_RECORD * (InputBufferSize this - 1))
    with (First this + sizeof_INPUT_RECORD * (InputBufferSize this - 1))
    by (now rewrite HF).
  rewrite <- HF.
  replace (First this) with (First this + sizeof_INPUT_RECORD * 0) at 2 4
    by zl.
  destruct (KeepKeys_bounds (First this) (InputBufferSize this - 1) Tmp 0
              (InputBuffer this) ltac:(lia)) as (k' & E & Hk' & Hb).
  destruct (KeepKeys _ _ _ _) as [InPtr blk]. cbn [fst snd] in *. subst InPtr.
  apply signal_ok_iff in Hsig; [|exact Hwf].
  destruct (Z.eq_dec k' 0) as [->|Hk0]; settle; cbn [snd];
    match goal with
    | |- wf ?X /\ signal_ok ?X =>
        assert (Hwf' : wf X);
        [|split; [exact Hwf'|apply signal_ok_iff; [exact Hwf'|]]]
    end; proj.
  - exists 0, 0; proj; repeat split; try assumption; try congruence; zl.
  - split; [discriminate|intros H; exfalso; apply H; zl].
  - exists k', 0; proj; repeat split; try assumption; try congruence; zl.
  - split; [intros _; zl|intros _; now apply Hsig].
Qed.

Lemma ReadInputBuffer_signal pcLength fPeek fWaitForData fStreamRead
    ReadCount WaitStatus fUnicode this :
  wf this -> signal_ok this ->
  0 <= pcLength -> pcLength * sizeof_INPUT_RECORD <= ULONG_MAX ->
  (In this = Out this -> fWaitForData = true ->
   NT_SUCCESS WaitStatus = false) ->
  let r := ReadInputBuffer pcLength fPeek fWaitForData fStreamRead ReadCount
             WaitStatus fUnicode this in
  wf (riInfo r) /\ signal_ok (riInfo r).
Proof.
  intros Hwf Hsig HLen HLsz Hwait. unfold ReadInputBuffer.
  destruct (Z.eqb_spec (In this) (Out this)) as [He|Hne].
  - destruct fWaitForData; cbn [negb];
      [rewrite (Hwait He eq_refl)|]; now split.
  - pose proof (ReadBuffer_wf pcLength fPeek fStreamRead fUnicode this
                  Hwf Hne HLen HLsz) as Hwf1.
    destruct (ReadBuffer_frame pcLength fPeek fStreamRead fUnicode this)
      as (Hreset & Hev & _).
    cbn [riInfo]. rewrite Hreset.
    apply signal_ok_iff in Hsig; [|exact Hwf].
    destruct (Z.eqb_spec (Out (rdInfo (ReadBuffer pcLength fPeek fStreamRead
                                         fUnicode this)))
                (In (rdInfo (ReadBuffer pcLength fPeek fStreamRead
                               fUnicode this)))) as [E|E].
    + assert (Hwf' : wf (set_InputWaitEvent false
                           (rdInfo (ReadBuffer pcLength fPeek fStreamRead
                                      fUnicode this))))
        by (destruct Hwf1 as (a & b & H); exists a, b; exact H).
      split; [exact Hwf'|]. apply signal_ok_iff; [exact Hwf'|].
      proj. split; [discriminate|congruence].
    + split; [exact Hwf1|]. apply signal_ok_iff; [exact Hwf1|].
      rewrite Hev. split; [congruence|intros _; now apply Hsig].
Qed.

Lemma WriteInputBuffer_signal Flags pInputRecord cInputRecords this :
  0 <= INPUT_BUFFER_SIZE_INCREMENT ->
  wf this -> signal_ok this ->
  0 <= cInputRecords ->
  cInputRecords * sizeof_INPUT_RECORD <= ULONG_MAX ->
  (forall n, 0 <= n <= cInputRecords -> growth_fits n this) ->
  exists EventsWritten Flags' this',
    WriteInputBuffer Flags pInputRecord cInputRecords this
    = Some (EventsWritten, Flags', this')
    /\ wf this' /\ signal_ok this'.
Proof.
  intros Hinc Hwf Hsig Hc Hsz Hfit. unfold WriteInputBuffer.
  pose proof (PreprocessInput_length (InputMode this) (Z.to_nat cInputRecords)
                pInputRecord Flags) as Hlen.
  destruct (PreprocessInput _ _ _ _) as [kept Flags']. cbn [fst] in Hlen.
  destruct (Z.eqb_spec (Z.of_nat (length kept)) 0) as [E|E].
  { do 3 eexists. split; [reflexivity|]. now split. }
  pose proof Hsig as Hsig0.
  apply signal_ok_iff in Hsig; [|exact Hwf].
  destruct (Coalesce kept (Z.of_nat (length kept)) this) as [this1|] eqn:Hco.
  - unfold WriteBuffer. rewrite Hco. cbn [wrInfo wrSetWaitEvent writeReturn].
    do 3 eexists. split; [reflexivity|].
    destruct (Coalesce_frame _ _ _ _ Hco) as (_ & Hne & r & ->).
    split; [now apply wf_poke|].
    apply signal_ok_iff; [now apply wf_poke|]. exact Hsig.
  - destruct (WriteBuffer_append kept (Z.of_nat (length kept)) this Hinc Hwf
                eq_refl) as (w & Hw & Hpost); [zl|apply Hfit; zl|exact Hco|].
    rewrite Hw.
    destruct Hpost as (P1 & P2 & P3 & P4 & _ & P6 & _ & P8).
    assert (Hpos : 0 < Z.of_nat (length (contents (wrInfo w)))).
    { destruct P8 as [[_ P8]|(_ & _ & P8 & _)].
      - rewrite P3, length_app, firstn_length_le by zl. zl.
      - destruct P1 as (? & ? & ? & ? & ? & _). zl. }
    assert (Hne' : In (wrInfo w) <> Out (wrInfo w)).
    { intros Heq. apply (empty_contents _ P1) in Heq.
      rewrite Heq in Hpos. simpl in Hpos. lia. }
    do 3 eexists. split; [reflexivity|].
    revert P6. settle. intros P6. rewrite P6.
    destruct (Z.eqb_spec (Out this) (In this)) as [Hemp|Hfilled].
    + assert (Hwf' : wf (set_InputWaitEvent true (wrInfo w)))
        by (destruct P1 as (a & b & H); exists a, b; exact H).
      split; [exact Hwf'|]. apply signal_ok_iff; [exact Hwf'|].
      proj. split; [intros _; exact Hne'|reflexivity].
    + split; [exact P1|]. apply signal_ok_iff; [exact P1|].
      rewrite P4. split; [intros _; exact Hne'|intros _; apply Hsig; congruence].
Qed.
Lemma growth_fits_bound Length this :
  0 <= Length -> 0 <= INPUT_BUFFER_SIZE_INCREMENT -> 0 <= InputBufferSize this ->
  sizeof_INPUT_RECORD
  * (InputBufferSize this + Length + INPUT_BUFFER_SIZE_INCREMENT + 1)
  <= ULONG_MAX ->
  growth_fits Length this.
Proof. intros. split; [zl|intros _; assumption]. Qed.

(** ** The claims *)

(** C7.  A write that needs the buffer to grow, when the resize fails
    (integer overflow or no memory): the records that fit the free slots
    are appended behind the queued ones, which stay as they are and in
    order; their number is reported; the status is the one the resize
    returned; the capacity is unchanged. *)
Theorem WriteBuffer_growth_failure Buffer Length this :
  0 <= INPUT_BUFFER_SIZE_INCREMENT ->
  wf this ->
  Z.of_nat (length Buffer) = Length ->
  Length * sizeof_INPUT_RECORD <= ULONG_MAX ->
  InputBufferSize this + Length + INPUT_BUFFER_SIZE_INCREMENT + 1
  <= ULONG_MAX ->
  Coalesce Buffer Length this = None ->
  InputBufferSize this - GetNumberOfReadyEvents this < Length ->
  NT_SUCCESS (fst (GrowInputBuffer Length this)) = false ->
  exists w,
    WriteBuffer Buffer Length this = Some w
    /\ wrStatus w = fst (GrowInputBuffer Length this)
    /\ (wrStatus w = STATUS_INTEGER_OVERFLOW
        \/ wrStatus w = STATUS_NO_MEMORY)
    /\ wrEventsWritten w
       = InputBufferSize this - GetNumberOfReadyEvents this
    /\ contents (wrInfo w)
       = contents this ++ firstn (Z.to_nat (wrEventsWritten w)) Buffer
    /\ InputBufferSize (wrInfo w) = InputBufferSize this
    /\ wf (wrInfo w).
Proof.
  intros Hinc Hwf HB HLsz Hsize Hco Hneed Hfail.
  assert (Hfit : growth_fits Length this)
    by (split; [assumption|rewrite Hfail; discriminate]).
  destruct (WriteBuffer_append Buffer Length this Hinc Hwf HB HLsz Hfit Hco)
    as (w & Hw & P1 & P2 & P3 & _ & _ & _ & P7 & P8).
  exists w. split; [exact Hw|].
  rewrite (ready_events_contents this Hwf) in *.
  assert (Hsame : InputBufferSize (wrInfo w) = InputBufferSize this)
    by (destruct P7 as [?|[? _]]; [assumption|congruence]).
  pose proof (contents_bound _ P1) as Hbound.
  rewrite P3, length_app, firstn_length_le in Hbound by zl.
  destruct P8 as [[_ Hall]|(Hno & Hst & Hfull & _)]; [zl|].
  split; [exact Hst|]. split.
  { unfold GrowInputBuffer in *. rewrite Hst.
    apply SetInputBufferSize_failure. exact Hfail. }
  rewrite P3, length_app, firstn_length_le in Hfull by zl.
  repeat split; try assumption; zl.
Qed.

(** The wait event is signalled exactly when events are ready: each of
    [WriteInputBuffer], [ReadInputBuffer], [FlushInputBuffer] and
    [FlushAllButKeys] keeps this (and the shape of the buffer) when it
    holds on entry, for lengths whose byte size fits a [ULONG] and, for
    [ReadInputBuffer] on an empty buffer, a wait that does not report
    success. *)
Theorem wait_signal_invariant this :
  0 <= INPUT_BUFFER_SIZE_INCREMENT ->
  wf this -> signal_ok this ->
  (forall Flags pInputRecord cInputRecords,
     0 <= cInputRecords ->
     cInputRecords * sizeof_INPUT_RECORD <= ULONG_MAX ->
     (forall n, 0 <= n <= cInputRecords -> growth_fits n this) ->
     exists EventsWritten Flags' this',
       WriteInputBuffer Flags pInputRecord cInputRecords this
       = Some (EventsWritten, Flags', this')
       /\ wf this' /\ signal_ok this')
  /\ (forall pcLength fPeek fWaitForData fStreamRead ReadCount WaitStatus
             fUnicode,
        0 <= pcLength -> pcLength * sizeof_INPUT_RECORD <= ULONG_MAX ->
        (In this = Out this -> fWaitForData = true ->
         NT_SUCCESS WaitStatus = false) ->
        let r := ReadInputBuffer pcLength fPeek fWaitForData fStreamRead
                   ReadCount WaitStatus fUnicode this in
        wf (riInfo r) /\ signal_ok (riInfo r))
  /\ (wf (FlushInputBuffer this) /\ signal_ok (FlushInputBuffer this))
  /\ (wf (snd (FlushAllButKeys this))
      /\ signal_ok (snd (FlushAllButKeys this))).
Proof.
  intros Hinc Hwf Hsig. split; [|split; [|split]].
  - intros. now apply WriteInputBuffer_signal.
  - intros. now apply ReadInputBuffer_signal.
  - assert (Hwf' : wf (FlushInputBuffer this)).
    { destruct Hwf as (i & o & HF & HL & Hcap & Hsz & _).
      exists 0, 0. unfold FlushInputBuffer. proj.
      repeat split; try assumption; try zl. }
    split; [exact Hwf'|]. apply signal_ok_iff; [exact Hwf'|].
    unfold FlushInputBuffer. proj. split; [discriminate|congruence].
  - now apply FlushAllButKeys_signal.
Qed.


(** What a resize copies out of an empty buffer: every slot of the old
    store. *)
Lemma ReadBuffer_peek_empty Size this :
  wf this -> In this = Out this ->
  InputBufferSize this < Size ->
  Size * sizeof_INPUT_RECORD <= ULONG_MAX ->
  let r := ReadBuffer Size true false true this in
  rdEventsRead r = InputBufferSize this + 1 /\ rdInfo r = this.
Proof.
  intros (i & o & HF & HL & Hcap & Hsz & HI & Hi & HO & Ho) He Hbig HSz.
  assert (Hcase : (o = 0 /\ Size = InputBufferSize this + 1)
                  \/ (o = 0 /\ InputBufferSize this + 1 < Size)
                  \/ 0 < o) by lia.
  unfold ReadBuffer, TransferSegment, readDone. proj.
  destruct Hcase as [[? ?]|[[? ?]|?]]; settle; split; try reflexivity; zd.
Qed.

(** [WriteStep] hands [SetInputBufferSize] buffers that hold records
    only: what a pass of the loop returns does not depend on what the
    resize routine would do with an empty buffer (the routine is taken
    to return a buffer of the right shape, as [SetInputBufferSize]
    does). *)
Lemma WriteStep_grows_nonempty grow grow' Length Buffer BLB EW SW this :
  wf this ->
  wf (snd (grow' Length this)) ->
  (forall that, In that <> Out that -> grow Length that = grow' Length that) ->
  WriteStep Length Buffer BLB EW SW this
  = WriteStepWith GrowInputBuffer Length Buffer BLB EW SW this
  /\ WriteStepWith grow Length Buffer BLB EW SW this
     = WriteStepWith grow' Length Buffer BLB EW SW this.
Proof.
  intros Hwf Hwf1 Hsame. split; [reflexivity|].
  assert (Hfull : forall that,
            wf that -> First that = Out that ->
            In that = Last that - sizeof_INPUT_RECORD ->
            In that <> Out that).
  { intros that (i & o & HF & HL & Hcap & Hsz & HI & Hi & HO & Ho) E1 E2.
    zl. }
  assert (Hout : forall SW' that,
            wf that ->
            OutPathWith grow Length Buffer BLB EW SW' that
            = OutPathWith grow' Length Buffer BLB EW SW' that).
  { intros SW' that Hthat. unfold OutPathWith.
    destruct (_ >? BLB); [reflexivity|].
    destruct (Z.eqb_spec (First that) (Out that)) as [E1|E1];
      [|reflexivity].
    destruct (Z.eqb_spec (In that) (Last that - sizeof_INPUT_RECORD))
      as [E2|E2]; [|reflexivity].
    cbn [andb]. rewrite (Hsame that (Hfull that Hthat E1 E2)).
    reflexivity. }
  unfold WriteStepWith.
  rewrite Z.gtb_ltb.
  destruct (Z.ltb_spec (In this) (Out this)) as [Hlt|Hge].
  - rewrite (Hsame this) by lia.
    destruct (_ <? BLB); [|reflexivity].
    destruct (grow' Length this) as [Status this1]. cbn [snd] in Hwf1.
    destruct (negb (NT_SUCCESS Status)); [reflexivity|].
    now apply Hout.
  - now apply Hout.
Qed.


(** On an empty buffer, which [WriteBuffer] never hands it,
    [SetInputBufferSize] would read the old store through [ReadBuffer]
    without looking whether it holds anything, and [ReadBuffer] takes
    [In = Out] for a store full of data: the resized buffer would report
    one event per slot of the old store. *)
Lemma SetInputBufferSize_empty_gains_events Size this :
  wf this -> In this = Out this ->
  InputBufferSize this < Size ->
  sizeof_INPUT_RECORD * (Size + 1) <= ULONG_MAX ->
  NT_SUCCESS (fst (SetInputBufferSize Size this)) = true ->
  GetNumberOfReadyEvents this = 0
  /\ fst (SetInputBufferSize Size this) = STATUS_SUCCESS
  /\ GetNumberOfReadyEvents (snd (SetInputBufferSize Size this))
     = InputBufferSize this + 1.
Proof.
  intros Hwf He Hbig HSz Hok.
  pose proof Hwf as (i & o & HF & HL & Hcap & Hsz & HI & Hi & HO & Ho).
  split.
  { unfold GetNumberOfReadyEvents. settle. zd. }
  revert Hok. unfold SetInputBufferSize.
  destruct (SizeTMult _ _) as [BufferSize|] eqn:HB; [|discriminate].
  destruct (operator_new _) as [NewBuffer|]; [|discriminate].
  destruct (ReadBuffer_peek_empty Size this Hwf He Hbig) as [Hn Hsame]; [zl|].
  rewrite ReadBuffer_status, NT_SUCCESS_ok, Hn, Hsame. cbn [negb fst snd].
  intros _. split; [reflexivity|].
  unfold GetNumberOfReadyEvents. proj. settle. zd.
Qed.
(** C4.  A single mouse-moved record written to a buffer whose last
    record is a mouse-moved record: the position of that record is
    overwritten, one record is reported written, and neither cursor, the
    capacity nor the number of ready events changes. *)
Theorem mouse_move_coalesce m lm this :
  In this <> Out this ->
  cell (InputBuffer this) (LastInputEvent this) = MOUSE_EVENT lm ->
  dwEventFlags lm = MOUSE_MOVED ->
  dwEventFlags m = MOUSE_MOVED ->
  exists w,
    WriteBuffer [MOUSE_EVENT m] 1 this = Some w
    /\ wrStatus w = STATUS_SUCCESS
    /\ wrEventsWritten w = 1
    /\ In (wrInfo w) = In this
    /\ Out (wrInfo w) = Out this
    /\ InputBufferSize (wrInfo w) = InputBufferSize this
    /\ GetNumberOfReadyEvents (wrInfo w) = GetNumberOfReadyEvents this
    /\ cell (InputBuffer (wrInfo w)) (LastInputEvent this)
       = MOUSE_EVENT {| dwMousePosition := dwMousePosition m;
                        dwButtonState := dwButtonState lm;
                        dwMouseControlKeyState := dwMouseControlKeyState lm;
                        dwEventFlags := dwEventFlags lm |}
    /\ (forall q, q <> LastInputEvent this ->
          cell (InputBuffer (wrInfo w)) q = cell (InputBuffer this) q).
Proof.
  intros Hne Hlast Hlm Hm.
  unfold WriteBuffer, Coalesce, CoalesceMouse.
  rewrite (proj2 (Z.eqb_neq (Out this) (In this))) by congruence.
  rewrite Hm, Hlast, Hlm. cbn [Z.eqb Pos.eqb andb negb MOUSE_MOVED].
  eexists. split; [reflexivity|]. cbn [writeReturn]. proj.
  repeat split; try reflexivity.
  - unfold writeReturn; proj. cbn [cell poke]. rewrite Z.eqb_refl. destruct m as [[x y] ? ? ?].
    reflexivity.
  - intros q Hq. unfold writeReturn; proj. cbn [cell poke].
    now rewrite (proj2 (Z.eqb_neq q (LastInputEvent this))).
Qed.

Lemma key_repeat_rule_code k this :
  In this <> Out this -> bKeyDown k = true ->
  IsCharFullWidth (UnicodeChar k) = false ->
  match cell (InputBuffer this) (LastInputEvent this) with
  | KEY_EVENT lk =>
      (key_repeat_rule k (KEY_EVENT lk) ->
       Coalesce [KEY_EVENT k] 1 this
       = Some (set_InputBuffer
                 (poke (LastInputEvent this)
                    (KEY_EVENT (AddRepeatCount lk k)) (InputBuffer this))
                 this))
      /\ (~ key_repeat_rule k (KEY_EVENT lk) ->
          Coalesce [KEY_EVENT k] 1 this = None)
  | _ => Coalesce [KEY_EVENT k] 1 this = None
  end.
Proof.
  intros Hne Hdown Hnarrow.
  unfold Coalesce, CoalesceKey.
  rewrite (proj2 (Z.eqb_neq (Out this) (In this))) by congruence.
  rewrite Hdown, Hnarrow. cbn [Z.eqb Pos.eqb andb negb].
  destruct (cell (InputBuffer this) (LastInputEvent this)) as [lk| | | |];
    try (destruct (negb _); reflexivity).
  unfold key_repeat_rule.
  destruct (Z.eqb_spec (Z.land (dwControlKeyState k) NLS_IME_CONVERSION) 0)
    as [Hime|Hime]; cbn [negb];
    destruct (bKeyDown lk);
    destruct (Z.eqb_spec (wVirtualScanCode lk) (wVirtualScanCode k));
    destruct (Z.eqb_spec (UnicodeChar lk) (UnicodeChar k));
    destruct (Z.eqb_spec (dwControlKeyState lk) (dwControlKeyState k));
    cbn [andb]; split; intros H; try reflexivity;
    solve [ exfalso; apply H; tauto
          | exfalso; destruct H as [(? & ? & ? & ?)|(? & ? & ? & ?)];
            congruence ].
Qed.

(** C5.  A single key-down record that is not full-width, written to a
    buffer that holds records, is merged into the last record exactly when
    the rule of the specification holds of the two records; a merge adds
    the repeat counts, reports one record written and leaves the cursors,
    the capacity and the number of ready events as they were; otherwise
    the record goes to the append loop. *)
Theorem key_repeat_coalesce k this :
  In this <> Out this ->
  bKeyDown k = true ->
  IsCharFullWidth (UnicodeChar k) = false ->
  (key_repeat_rule k (cell (InputBuffer this) (LastInputEvent this)) ->
   exists lk w,
     cell (InputBuffer this) (LastInputEvent this) = KEY_EVENT lk
     /\ WriteBuffer [KEY_EVENT k] 1 this = Some w
     /\ wrStatus w = STATUS_SUCCESS
     /\ wrEventsWritten w = 1
     /\ In (wrInfo w) = In this
     /\ Out (wrInfo w) = Out this
     /\ InputBufferSize (wrInfo w) = InputBufferSize this
     /\ GetNumberOfReadyEvents (wrInfo w) = GetNumberOfReadyEvents this
     /\ cell (InputBuffer (wrInfo w)) (LastInputEvent this)
        = KEY_EVENT (AddRepeatCount lk k)
     /\ (forall q, q <> LastInputEvent this ->
           cell (InputBuffer (wrInfo w)) q = cell (InputBuffer this) q))
  /\ (~ key_repeat_rule k (cell (InputBuffer this) (LastInputEvent this)) ->
      Coalesce [KEY_EVENT k] 1 this = None
      /\ WriteBuffer [KEY_EVENT k] 1 this
         = WriteLoop 2 1 [KEY_EVENT k] (ULONG (1 * sizeof_INPUT_RECORD)) 0
             false this).
Proof.
  intros Hne Hdown Hnarrow.
  pose proof (key_repeat_rule_code k this Hne Hdown Hnarrow) as Hcode.
  split.
  - intros Hrule.
    destruct (cell (InputBuffer this) (LastInputEvent this)) as [lk| | | |];
      try contradiction.
    destruct Hcode as [Hyes _]. specialize (Hyes Hrule).
    exists lk. eexists. split; [reflexivity|].
    unfold WriteBuffer. rewrite Hyes. split; [reflexivity|].
    cbn [writeReturn]. proj. repeat split; try reflexivity.
    + unfold writeReturn; proj. cbn [cell poke]. now rewrite Z.eqb_refl.
    + intros q Hq. unfold writeReturn; proj. cbn [cell poke].
      now rewrite (proj2 (Z.eqb_neq q (LastInputEvent this))).
  - intros Hrule.
    assert (Hnone : Coalesce [KEY_EVENT k] 1 this = None).
    { destruct (cell (InputBuffer this) (LastInputEvent this));
        try exact Hcode. now apply Hcode. }
    split; [exact Hnone|]. unfold WriteBuffer. rewrite Hnone. reflexivity.
Qed.

(** C10.  The merged repeat count is the sum of the two counts as a
    16-bit unsigned number: a sum of 2^16 or more is stored less 2^16, and
    the write still returns [STATUS_SUCCESS]. *)
Theorem key_repeat_count_wraps k lk this :
  In this <> Out this ->
  bKeyDown k = true ->
  IsCharFullWidth (UnicodeChar k) = false ->
  cell (InputBuffer this) (LastInputEvent this) = KEY_EVENT lk ->
  key_repeat_rule k (KEY_EVENT lk) ->
  exists lk' w,
    WriteBuffer [KEY_EVENT k] 1 this = Some w
    /\ wrStatus w = STATUS_SUCCESS
    /\ cell (InputBuffer (wrInfo w)) (LastInputEvent this) = KEY_EVENT lk'
    /\ wRepeatCount lk' = (wRepeatCount lk + wRepeatCount k) mod 2 ^ 16
    /\ (0 <= wRepeatCount lk < 2 ^ 16 -> 0 <= wRepeatCount k < 2 ^ 16 ->
        2 ^ 16 <= wRepeatCount lk + wRepeatCount k ->
        wRepeatCount lk' = wRepeatCount lk + wRepeatCount k - 2 ^ 16).
Proof.
  intros Hne Hdown Hnarrow Hlast Hrule.
  pose proof (key_repeat_rule_code k this Hne Hdown Hnarrow) as Hcode.
  rewrite Hlast in Hcode. destruct Hcode as [Hyes _].
  specialize (Hyes Hrule).
  exists (AddRepeatCount lk k). eexists.
  unfold WriteBuffer. rewrite Hyes. split; [reflexivity|].
  cbn [writeReturn]. proj. repeat split; try reflexivity.
  - unfold writeReturn; proj. cbn [cell poke]. now rewrite Z.eqb_refl.
  - cbn [AddRepeatCount wRepeatCount WORD] in *. intros. unfold WORD.
    Z.div_mod_to_equations. lia.
Qed.

(** C2.  What the stream branch of [ReadBuffer] does, against the
    comments of the routine (a repeat count above one is decremented;
    [Peek] removes no data): a stream read of a buffer whose next record
    is a key event copies that record, repeat count and all, to the
    destination, reports one event read, and steps [Out] past the record
    (back to [First] at the end of the store), with or without [Peek]:
    the record leaves the queue, whatever its repeat count. *)
Theorem stream_read_takes_key_record Length Peek Unicode this :
  wf this -> In this <> Out this ->
  isKeyEvent (cell (InputBuffer this) (Out this)) = true ->
  let r := ReadBuffer Length Peek true Unicode this in
  rdStatus r = STATUS_SUCCESS
  /\ rdEventsRead r = 1
  /\ rdBuffer r = [cell (InputBuffer this) (Out this)]
  /\ contents this = cell (InputBuffer this) (Out this) :: contents (rdInfo r)
  /\ GetNumberOfReadyEvents (rdInfo r) = GetNumberOfReadyEvents this - 1
  /\ InputBuffer (rdInfo r) = InputBuffer this
  /\ Out (rdInfo r)
     = (if Last this =? Out this + sizeof_INPUT_RECORD
        then First this else Out this + sizeof_INPUT_RECORD).
Proof.
  intros Hwf Hne Hkey.
  destruct (ReadBuffer_stream_key Length Peek Unicode this Hwf Hne Hkey)
    as (Hs & Hbuf & Hn & Hwf' & Hq & Hinfo & _).
  cbv zeta. repeat split; try assumption.
  - rewrite (ready_events_contents _ Hwf'), (ready_events_contents _ Hwf), Hq.
    simpl length. lia.
  - rewrite Hinfo. reflexivity.
  - unfold ReadBuffer, readDone. rewrite Hkey. proj.
    destruct (_ =? _); reflexivity.
Qed.

(** ** Further properties of the buffer routines *)

(** X1.  The constructor hands out an empty buffer of the right shape,
    with the event in the state of the global event; its capacity is the
    one asked for, or the default when 0 is asked for or the byte size
    of the store would not fit a [ULONG]. *)
Theorem INPUT_INFORMATION_new_empty cEvents hInputEvent this :
  0 <= cEvents <= ULONG_MAX ->
  1 <= DEFAULT_NUMBER_OF_EVENTS ->
  sizeof_INPUT_RECORD * (DEFAULT_NUMBER_OF_EVENTS + 1) <= ULONG_MAX ->
  INPUT_INFORMATION_new cEvents hInputEvent = Some this ->
  wf this
  /\ contents this = []
  /\ GetNumberOfReadyEvents this = 0
  /\ InputWaitEvent this = hInputEvent
  /\ InputBufferSize this
     = (if (cEvents =? 0)
           || (ULONG_MAX <? sizeof_INPUT_RECORD * (cEvents + 1))
        then DEFAULT_NUMBER_OF_EVENTS else cEvents).
Proof.
  intros Hc Hd Hdsz. unfold INPUT_INFORMATION_new, DWordAdd, DWordMult.
  set (cap := if (cEvents =? 0)
                 || (ULONG_MAX <? sizeof_INPUT_RECORD * (cEvents + 1))
              then DEFAULT_NUMBER_OF_EVENTS else cEvents).
  assert (Hcap : 1 <= cap /\ sizeof_INPUT_RECORD * (cap + 1) <= ULONG_MAX).
  { subst cap. destruct (Z.eqb_spec cEvents 0); cbn [orb]; [now split|].
    destruct (Z.ltb_spec ULONG_MAX (sizeof_INPUT_RECORD * (cEvents + 1)));
      split; zl. }
  match goal with
  | |- match operator_new (ULONG (_ * ULONG (?c + 1))) with _ => _ end = _
       -> _ =>
      replace c with cap
  end.
  2:{ subst cap. destruct (Z.eqb_spec cEvents 0) as [->|Hnz]; cbn [orb].
      - destruct (Z.leb_spec (DEFAULT_NUMBER_OF_EVENTS + 1) ULONG_MAX);
          [|zl].
        destruct (Z.leb_spec (sizeof_INPUT_RECORD
                              * (DEFAULT_NUMBER_OF_EVENTS + 1)) ULONG_MAX);
          [reflexivity|zl].
      - destruct (Z.ltb_spec ULONG_MAX
                    (sizeof_INPUT_RECORD * (cEvents + 1)));
          destruct (Z.leb_spec (cEvents + 1) ULONG_MAX);
          try destruct (Z.leb_spec (sizeof_INPUT_RECORD * (cEvents + 1))
                          ULONG_MAX);
          try reflexivity; zl. }
  clearbody cap. rewrite !ULONG_small by zd.
  destruct (operator_new _) as [blk|]; [|discriminate].
  intros H. injection H as <-.
  match goal with |- wf ?t /\ _ => set (this := t) end.
  assert (Hwf : wf this)
    by (exists 0, 0; subst this; proj; repeat split; try reflexivity; zl).
  assert (He : contents this = [])
    by now apply (empty_contents _ Hwf).
  rewrite (ready_events_contents _ Hwf), He. repeat split. exact Hwf.
Qed.

(** X2.  [FlushInputBuffer] and [ReinitializeInputBuffer] leave an empty
    buffer with the event reset, of the capacity and store it had;
    [ReinitializeInputBuffer] also puts the input mode back. *)
Theorem flush_and_reinitialize_empty this :
  wf this ->
  (wf (FlushInputBuffer this)
   /\ contents (FlushInputBuffer this) = []
   /\ GetNumberOfReadyEvents (FlushInputBuffer this) = 0
   /\ InputWaitEvent (FlushInputBuffer this) = false
   /\ InputBufferSize (FlushInputBuffer this) = InputBufferSize this
   /\ InputMode (FlushInputBuffer this) = InputMode this)
  /\ (wf (ReinitializeInputBuffer this)
      /\ contents (ReinitializeInputBuffer this) = []
      /\ GetNumberOfReadyEvents (ReinitializeInputBuffer this) = 0
      /\ InputWaitEvent (ReinitializeInputBuffer this) = false
      /\ InputBufferSize (ReinitializeInputBuffer this)
         = InputBufferSize this
      /\ InputMode (ReinitializeInputBuffer this)
         = Z.lor (Z.lor (Z.lor ENABLE_LINE_INPUT ENABLE_PROCESSED_INPUT)
                    ENABLE_ECHO_INPUT) ENABLE_MOUSE_INPUT).
Proof.
  intros (i & o & HF & HL & Hcap & Hsz & _).
  assert (H1 : wf (FlushInputBuffer this))
    by (exists 0, 0; unfold FlushInputBuffer; proj; repeat split;
        try assumption; zl).
  assert (H2 : wf (ReinitializeInputBuffer this))
    by (exists 0, 0; unfold ReinitializeInputBuffer; proj; repeat split;
        try assumption; zl).
  split.
  - split; [exact H1|].
    assert (E : contents (FlushInputBuffer this) = [])
      by now apply (empty_contents _ H1).
    rewrite (ready_events_contents _ H1), E. repeat split.
  - split; [exact H2|].
    assert (E : contents (ReinitializeInputBuffer this) = [])
      by now apply (empty_contents _ H2).
    rewrite (ready_events_contents _ H2), E. repeat split.
Qed.

Lemma KeepKeys_below limit : forall Tmp InPtr blk q,
  q < InPtr ->
  cell (snd (KeepKeys limit Tmp InPtr blk)) q = cell blk q.
Proof.
  induction Tmp as [|r Tmp IH]; intros InPtr blk q Hq; cbn [KeepKeys];
    [reflexivity|].
  destruct (limit <=? InPtr); [reflexivity|].
  destruct (isKeyEvent r); [|now apply IH].
  rewrite IH by zl. cbn [cell poke].
  now rewrite (proj2 (Z.eqb_neq q InPtr)) by lia.
Qed.

Lemma KeepKeys_content b m : forall Tmp k blk,
  0 <= k <= m ->
  let kept := firstn (Z.to_nat (m - k)) (filter isKeyEvent Tmp) in
  fst (KeepKeys (b + sizeof_INPUT_RECORD * m) Tmp
         (b + sizeof_INPUT_RECORD * k) blk)
  = b + sizeof_INPUT_RECORD * (k + Z.of_nat (length kept))
  /\ load (snd (KeepKeys (b + sizeof_INPUT_RECORD * m) Tmp
                  (b + sizeof_INPUT_RECORD * k) blk))
       (b + sizeof_INPUT_RECORD * k) (length kept)
     = kept.
Proof.
  induction Tmp as [|r Tmp IH]; intros k blk Hk; cbn [KeepKeys filter].
  - rewrite firstn_nil. cbn [length load fst snd]. split; [zl|reflexivity].
  - destruct (Z.leb_spec (b + sizeof_INPUT_RECORD * m)
                (b + sizeof_INPUT_RECORD * k)) as [Hfull|Hroom].
    + replace (Z.to_nat (m - k)) with O by zl.
      cbn [firstn length load fst snd]. split; [zl|reflexivity].
    + destruct (isKeyEvent r) eqn:Hr.
      * replace (b + sizeof_INPUT_RECORD * k + sizeof_INPUT_RECORD)
          with (b + sizeof_INPUT_RECORD * (k + 1)) by zl.
        destruct (IH (k + 1) (poke (b + sizeof_INPUT_RECORD * k) r blk))
          as [E1 E2]; [zl|].
        replace (Z.to_nat (m - k)) with (S (Z.to_nat (m - (k + 1)))) by zl.
        cbn [firstn length load]. split.
        -- rewrite E1. zl.
        -- f_equal.
           ++ rewrite KeepKeys_below by zl. cbn [cell poke].
              now rewrite Z.eqb_refl.
           ++ replace (b + sizeof_INPUT_RECORD * k + sizeof_INPUT_RECORD)
                with (b + sizeof_INPUT_RECORD * (k + 1)) by zl.
              exact E2.
      * now apply IH.
Qed.

(** X3.  [FlushAllButKeys], when it returns [STATUS_SUCCESS], leaves the
    key events of the queue, in their order, as far as they fit
    [InputBufferSize - 1] slots (the loop stops one slot short of the
    capacity); every other event is gone. *)
Theorem FlushAllButKeys_keeps_keys this :
  wf this ->
  fst (FlushAllButKeys this) = STATUS_SUCCESS ->
  contents (snd (FlushAllButKeys this))
  = firstn (Z.to_nat (InputBufferSize this - 1))
      (filter isKeyEvent (contents this))
  /\ InputBufferSize (snd (FlushAllButKeys this)) = InputBufferSize this.
Proof.
  intros Hwf.
  pose proof Hwf as (i & o & HF & HL & Hcap & Hsz & HI & Hi & HO & Ho).
  pose proof (contents_bound this Hwf) as Hbound.
  unfold FlushAllButKeys.
  destruct (Z.eqb_spec (In this) (Out this)) as [He|Hne]; cbn [negb].
  { intros _. cbn [snd].
    rewrite (proj1 (empty_contents this Hwf) He). cbn [filter].
    now rewrite firstn_nil. }
  destruct (DWordMult _ _); [|discriminate].
  destruct (operator_new _); [|discriminate].
  destruct (ReadBuffer_unicode (InputBufferSize this) true this Hwf Hne)
    as (Hs & Hbuf & Hn & Hsame & _); [zl|zl|].
  rewrite Hs, (Hsame eq_refl), NT_SUCCESS_ok, Hn, Hbuf. cbn [negb]. proj.
  rewrite Nat2Z.id, firstn_all. rewrite firstn_all2 by zl.
  intros _.
  replace (base (InputBuffer this)
           + sizeof_INPUT_RECORD * (InputBufferSize this - 1))
    with (First this + sizeof_INPUT_RECORD * (InputBufferSize this - 1))
    by (now rewrite HF).
  rewrite <- HF.
  pose proof (KeepKeys_content (First this) (InputBufferSize this - 1)
                (contents this) 0 (InputBuffer this) ltac:(lia)) as K.
  cbv zeta in K. rewrite Z.sub_0_r, Z.mul_0_r, Z.add_0_r in K.
  set (kept := firstn (Z.to_nat (InputBufferSize this - 1))
                 (filter isKeyEvent (contents this))) in *.
  assert (Hk : Z.of_nat (length kept) <= InputBufferSize this - 1)
    by (subst kept; rewrite length_firstn; zl).
  clearbody kept.
  destruct (KeepKeys _ _ _ _) as [InPtr blk]. cbn [fst snd] in K.
  destruct K as [-> Hload].
  destruct (Z.eqb_spec (First this + sizeof_INPUT_RECORD
                                     * (0 + Z.of_nat (length kept)))
              (First this)); cbn [snd]; (split; [|reflexivity]);
    queue_at (Z.of_nat (length kept)) 0; settle;
    rewrite Z.sub_0_r, Nat2Z.id; exact Hload.
Qed.

(** X4.  [FlushAllButKeys] that cannot allocate its scratch store
    returns [STATUS_NO_MEMORY] and leaves the buffer as it is; it asks
    for no store when the buffer is empty. *)
Theorem FlushAllButKeys_failure this :
  wf this ->
  fst (FlushAllButKeys this) <> STATUS_SUCCESS ->
  fst (FlushAllButKeys this) = STATUS_NO_MEMORY
  /\ snd (FlushAllButKeys this) = this
  /\ In this <> Out this
  /\ operator_new (sizeof_INPUT_RECORD * (InputBufferSize this + 1)) = None.
Proof.
  intros Hwf.
  pose proof Hwf as (i & o & HF & HL & Hcap & Hsz & HI & Hi & HO & Ho).
  unfold FlushAllButKeys, DWordMult.
  destruct (Z.eqb_spec (In this) (Out this)) as [He|Hne]; cbn [negb];
    [intros Hs; now destruct Hs|].
  rewrite ULONG_small by zl.
  destruct (Z.leb_spec (sizeof_INPUT_RECORD * (InputBufferSize this + 1))
              ULONG_MAX); [|zl].
  destruct (operator_new _) eqn:Hnew.
  - rewrite ReadBuffer_status, NT_SUCCESS_ok. cbn [negb].
    intros Hs. exfalso. apply Hs.
    destruct (KeepKeys _ _ _ _). reflexivity.
  - intros _. repeat split; assumption.
Qed.



(** X7.  [ReadInputBuffer] on an empty buffer hands out nothing and
    leaves the buffer as it is: at once, with [STATUS_SUCCESS], when the
    caller does not wait, and with the status of the wait when the wait
    does not succeed; the read count of the handle stays raised only for
    [CONSOLE_STATUS_WAIT]. *)
Theorem ReadInputBuffer_empty pcLength fPeek fWaitForData fStreamRead
    ReadCount WaitStatus fUnicode this :
  In this = Out this ->
  fWaitForData = false \/ NT_SUCCESS WaitStatus = false ->
  let r := ReadInputBuffer pcLength fPeek fWaitForData fStreamRead ReadCount
             WaitStatus fUnicode this in
  riRecords r = [] /\ riLength r = 0 /\ riInfo r = this
  /\ riStatus r = (if fWaitForData then WaitStatus else STATUS_SUCCESS)
  /\ riReadCount r
     = (if fWaitForData && (WaitStatus =? CONSOLE_STATUS_WAIT)
        then ReadCount + 1 else ReadCount).
Proof.
  intros He Hw. unfold ReadInputBuffer. rewrite He, Z.eqb_refl.
  destruct fWaitForData; cbn [negb andb];
    [|repeat split].
  destruct Hw as [Hw|Hw]; [discriminate|]. rewrite Hw. cbn [negb].
  cbn [riRecords riLength riInfo riStatus riReadCount].
  repeat split.
  destruct (WaitStatus =? CONSOLE_STATUS_WAIT); cbn [negb]; lia.
Qed.


(** One pass of the append loop when what is left to write fits the free
    slots: records are copied and the store is not replaced, whatever
    the allocator would do. *)
Lemma WriteStep_fits Length Buffer0 q0 Buffer BLB EW SW this :
  Z.of_nat (length Buffer0) = Length ->
  wf this -> 0 <= EW < Length ->
  Length - EW <= InputBufferSize this - Z.of_nat (length (contents this)) ->
  BLB = sizeof_INPUT_RECORD * (Length - EW) ->
  Buffer = skipn (Z.to_nat EW) Buffer0 ->
  contents this = q0 ++ firstn (Z.to_nat EW) Buffer0 ->
  match WriteStep Length Buffer BLB EW SW this with
  | Return _ => False
  | Continue Buffer' BLB' EW' SW' this' =>
      EW < EW' <= Length
      /\ wf this'
      /\ BLB' = sizeof_INPUT_RECORD * (Length - EW')
      /\ Buffer' = skipn (Z.to_nat EW') Buffer0
      /\ contents this' = q0 ++ firstn (Z.to_nat EW') Buffer0
      /\ SW' = (if Out this =? In this then true else SW)
      /\ InputBufferSize this' = InputBufferSize this
      /\ InputWaitEvent this' = InputWaitEvent this
      /\ InputMode this' = InputMode this
  end.
Proof.
  intros HB0 Hwf HEW Hfree HBLB HBuf Hq.
  pose proof Hwf as (i & o & HF & HL & Hcap & Hsz & HI & Hi & HO & Ho).
  assert (Hlenq : (i < o -> Z.of_nat (length (contents this))
                           = InputBufferSize this + 1 - o + i)
                  /\ (o <= i -> Z.of_nat (length (contents this)) = i - o)).
  { rewrite (contents_index this i o HI HO HL).
    destruct (Z.ltb_spec i o); rewrite ?length_app, !load_length; zl. }
  assert (HEWq : EW <= Z.of_nat (length (contents this)))
    by (rewrite Hq, length_app, firstn_length_le by zl; zl).
  assert (HLsz : Length * sizeof_INPUT_RECORD <= ULONG_MAX) by zl.
  subst Buffer.
  assert (Hcase :
    (i < o /\ Length - EW <= o - i - 1)
    \/ (o <= i /\ (Length - EW < InputBufferSize this + 1 - i
                   \/ (InputBufferSize this + 1 - i <= Length - EW
                       /\ 0 < o)))) by lia.
  unfold WriteStep, OutPath.
  destruct Hcase as [[Hio Hfit]|[Hoi [Hfit|[Hend Ho0]]]].
  - settle.
    pose proof (CopyIn_loop false BLB (Length - EW) Length Buffer0 q0 BLB EW SW
                  this i o Hwf HI HO) as K.
    premises K; revert K;
    destruct (CopyIn _ _ _ _ _ _ _); [contradiction|];
    intros (-> & ? & ? & ? & ? & ? & ? & ? & ?); repeat split; auto; zd.
  - settle.
    pose proof (CopyIn_loop true BLB (Length - EW) Length Buffer0 q0 BLB EW
                  (if Out this =? In this then true else SW)
                  this i o Hwf HI HO) as K.
    premises K; revert K;
    destruct (CopyIn _ _ _ _ _ _ _); [contradiction|];
    intros (-> & ? & ? & ? & ? & ? & ? & ? & ?); repeat split; auto; zd.
  - settle.
    pose proof (CopyIn_loop true (ULONG (Last this - In this))
                  (InputBufferSize this + 1 - i) Length Buffer0 q0 BLB EW
                  (if Out this =? In this then true else SW)
                  this i o Hwf HI HO) as K.
    premises K; revert K;
    destruct (CopyIn _ _ _ _ _ _ _); [contradiction|];
    intros (-> & ? & ? & ? & ? & ? & ? & ? & ?); repeat split; auto; zd.
Qed.

Lemma WriteLoop_fits Length Buffer0 q0 :
  Z.of_nat (length Buffer0) = Length ->
  forall fuel Buffer BLB EW SW this,
    wf this -> 0 <= EW <= Length ->
    Length - EW <= InputBufferSize this - Z.of_nat (length (contents this)) ->
    BLB = sizeof_INPUT_RECORD * (Length - EW) ->
    Buffer = skipn (Z.to_nat EW) Buffer0 ->
    contents this = q0 ++ firstn (Z.to_nat EW) Buffer0 ->
    Length - EW <= Z.of_nat fuel ->
    exists r,
      WriteLoop fuel Length Buffer BLB EW SW this = Some r
      /\ wrStatus r = STATUS_SUCCESS
      /\ wrEventsWritten r = Length
      /\ wf (wrInfo r)
      /\ contents (wrInfo r) = q0 ++ Buffer0
      /\ InputBufferSize (wrInfo r) = InputBufferSize this
      /\ InputWaitEvent (wrInfo r) = InputWaitEvent this
      /\ InputMode (wrInfo r) = InputMode this
      /\ wrSetWaitEvent r
         = (if EW <? Length
            then if Out this =? In this then true else SW
            else SW).
Proof.
  intros HB0.
  assert (Hdone : forall fuel Buffer BLB EW SW this,
    wf this -> EW = Length ->
    contents this = q0 ++ firstn (Z.to_nat EW) Buffer0 ->
    exists r,
      WriteLoop fuel Length Buffer BLB EW SW this = Some r
      /\ wrStatus r = STATUS_SUCCESS
      /\ wrEventsWritten r = Length
      /\ wf (wrInfo r)
      /\ contents (wrInfo r) = q0 ++ Buffer0
      /\ InputBufferSize (wrInfo r) = InputBufferSize this
      /\ InputWaitEvent (wrInfo r) = InputWaitEvent this
      /\ InputMode (wrInfo r) = InputMode this
      /\ wrSetWaitEvent r
         = (if EW <? Length
            then if Out this =? In this then true else SW
            else SW)).
  { intros fuel Buffer BLB EW SW this Hwf HEW Hq.
    rewrite WriteLoop_done by lia. eexists. split; [reflexivity|].
    unfold writeReturn; proj. rewrite Hq, firstn_all2 by zl. settle.
    repeat split; auto. }
  induction fuel as [|fuel IH];
    intros Buffer BLB EW SW this Hwf HEW Hfree HBLB HBuf Hq Hfuel.
  - apply Hdone; [assumption|zl|assumption].
  - destruct (Z.lt_ge_cases EW Length) as [Hlt|Hge];
      [|apply Hdone; [assumption|zl|assumption]].
    cbn [WriteLoop]. settle.
    pose proof (WriteStep_fits Length Buffer0 q0 Buffer BLB EW SW this
                  HB0 Hwf ltac:(lia) Hfree HBLB HBuf Hq) as K.
    destruct (WriteStep _ _ _ _ _ _) as [r|B' BLB' EW' SW' this'];
      [contradiction|].
    destruct K as (HEW' & Hwf' & HBLB' & HB' & Hq' & HSW' & Hcap' & Hev'
                   & Hmode').
    assert (Hne' : In this' <> Out this').
    { rewrite (empty_contents this' Hwf'), Hq'.
      intros E. apply app_eq_nil in E. destruct E as [_ E].
      apply (f_equal (@length _)) in E.
      rewrite firstn_length_le in E by zl. simpl in E. zl. }
    assert (Hfree' : Length - EW'
                     <= InputBufferSize this'
                        - Z.of_nat (length (contents this'))).
    { rewrite Hcap', Hq', length_app, firstn_length_le by zl.
      rewrite Hq, length_app, firstn_length_le in Hfree by zl. zl. }
    destruct (IH B' BLB' EW' SW' this' Hwf' ltac:(lia) Hfree' HBLB' HB' Hq'
                ltac:(zl))
      as (r & Hr & P1 & P2 & P3 & P4 & P5 & P6 & P7 & P8).
    exists r. split; [exact Hr|].
    rewrite P8, HSW'. settle.
    repeat split; try congruence.
    destruct (Z.ltb_spec EW' Length); settle; reflexivity.
Qed.

(** A write that fits the free slots is done in place. *)
Lemma WriteBuffer_in_place Buffer this :
  wf this ->
  Buffer <> [] ->
  Z.of_nat (length Buffer)
  <= InputBufferSize this - GetNumberOfReadyEvents this ->
  Coalesce Buffer (Z.of_nat (length Buffer)) this = None ->
  exists w,
    WriteBuffer Buffer (Z.of_nat (length Buffer)) this = Some w
    /\ wrStatus w = STATUS_SUCCESS
    /\ wrEventsWritten w = Z.of_nat (length Buffer)
    /\ wf (wrInfo w)
    /\ contents (wrInfo w) = contents this ++ Buffer
    /\ InputBufferSize (wrInfo w) = InputBufferSize this
    /\ wrSetWaitEvent w = (Out this =? In this).
Proof.
  intros Hwf Hnil Hfree Hco.
  rewrite (ready_events_contents this Hwf) in Hfree.
  pose proof Hwf as (_ & _ & _ & _ & Hcap & Hsz & _).
  assert (Hpos : 0 < Z.of_nat (length Buffer))
    by (destruct Buffer; [congruence|cbn [length]; lia]).
  unfold WriteBuffer. rewrite Hco.
  destruct (WriteLoop_fits (Z.of_nat (length Buffer)) Buffer (contents this)
              eq_refl (S (Z.to_nat (Z.of_nat (length Buffer))))
              Buffer (ULONG (Z.of_nat (length Buffer) * sizeof_INPUT_RECORD))
              0 false this Hwf)
    as (w & Hw & P1 & P2 & P3 & P4 & P5 & _ & _ & P8);
    try reflexivity; try zd.
  - cbn [Z.to_nat firstn]. now rewrite app_nil_r.
  - exists w. split; [exact Hw|].
    rewrite P8. settle.
    repeat split; try assumption.
    now destruct (Out this =? In this).
Qed.

(** X9.  A write that fits the free slots of the buffer always succeeds
    in full, whatever the allocator would do: every record is appended
    behind the queue, in order, the capacity is as before, and the
    caller is told to signal the event exactly when the buffer was
    empty. *)
Theorem WriteBuffer_fits Buffer this :
  wf this ->
  Buffer <> [] ->
  Z.of_nat (length Buffer)
  <= InputBufferSize this - GetNumberOfReadyEvents this ->
  Coalesce Buffer (Z.of_nat (length Buffer)) this = None ->
  exists w,
    WriteBuffer Buffer (Z.of_nat (length Buffer)) this = Some w
    /\ wrStatus w = STATUS_SUCCESS
    /\ wrEventsWritten w = Z.of_nat (length Buffer)
    /\ wf (wrInfo w)
    /\ contents (wrInfo w) = contents this ++ Buffer
    /\ InputBufferSize (wrInfo w) = InputBufferSize this
    /\ wrSetWaitEvent w = (Out this =? In this).
Proof. exact (WriteBuffer_in_place Buffer this). Qed.


(** X11.  [PreprocessInput] strips key-down events only: the key-up,
    mouse, size, menu and focus events among the [NumEvents] records it
    is given are all kept, in their order. *)
Theorem PreprocessInput_strips_key_downs_only mode :
  forall NumEvents InputEvent Flags,
    filter (fun r => negb (isKeyDown r))
      (fst (PreprocessInput mode Flags InputEvent NumEvents))
    = filter (fun r => negb (isKeyDown r)) (firstn NumEvents InputEvent).
Proof.
  induction NumEvents as [|n IH]; intros [|r rest] Flags;
    cbn [PreprocessInput firstn]; try reflexivity.
  assert (Hkeep : forall F,
    filter (fun r => negb (isKeyDown r))
      (fst (let '(kept, Flags0) := PreprocessInput mode F rest n in
            (r :: kept, Flags0)))
    = filter (fun r => negb (isKeyDown r)) (r :: firstn n rest)).
  { intros F. specialize (IH rest F).
    destruct (PreprocessInput mode F rest n) as [kept F'].
    cbn [fst filter] in *. now rewrite IH. }
  destruct r as [k| | | |]; try apply Hkeep.
  destruct (bKeyDown k) eqn:Hk; [|apply Hkeep].
  destruct (_ && _).
  - rewrite IH. cbn [filter isKeyDown]. now rewrite Hk.
  - destruct (_ && _); [|apply Hkeep].
    rewrite IH. cbn [filter isKeyDown]. now rewrite Hk.
Qed.

Lemma PreprocessInput_raw mode Flags :
  Z.land Flags CONSOLE_SUSPENDED = 0 ->
  Z.land mode ENABLE_LINE_INPUT = 0 ->
  forall NumEvents InputEvent,
    PreprocessInput mode Flags InputEvent NumEvents
    = (firstn NumEvents InputEvent, Flags).
Proof.
  intros HF Hm.
  induction NumEvents as [|n IH]; intros [|r rest];
    cbn [PreprocessInput firstn]; try reflexivity.
  rewrite IH, HF, Hm. cbn [Z.eqb negb andb].
  destruct r as [k| | | |]; try reflexivity.
  destruct (bKeyDown k); reflexivity.
Qed.

(** X12.  With the console not suspended and line input off,
    [PreprocessInput] strips nothing and leaves the console flags as
    they are. *)
Theorem PreprocessInput_passes_all mode Flags NumEvents InputEvent :
  Z.land Flags CONSOLE_SUSPENDED = 0 ->
  Z.land mode ENABLE_LINE_INPUT = 0 ->
  PreprocessInput mode Flags InputEvent NumEvents
  = (firstn NumEvents InputEvent, Flags).
Proof. intros HF Hm. now apply PreprocessInput_raw. Qed.


(** X14.  [PrependInputBuffer] puts the records [PreprocessInput] keeps
    in front of the queue: when they fit the free slots, the scratch
    store for the old records is granted, and the queue does not hold
    exactly one record (a single record written back may be merged into
    the last new one), the queue afterwards is the new records followed
    by the old ones, the capacity is as before and the event is
    signalled. *)
Theorem PrependInputBuffer_in_front Flags pInputRecord pcLength this :
  wf this ->
  let kept := fst (PreprocessInput (InputMode this) Flags pInputRecord
                     (Z.to_nat pcLength)) in
  kept <> [] ->
  Z.of_nat (length kept)
  <= InputBufferSize this - GetNumberOfReadyEvents this ->
  GetNumberOfReadyEvents this <> 1 ->
  (GetNumberOfReadyEvents this <> 0 ->
   operator_new (GetNumberOfReadyEvents this * sizeof_INPUT_RECORD)
   <> None) ->
  exists r,
    PrependInputBuffer Flags pInputRecord pcLength this = Some r
    /\ ppStatus r = STATUS_SUCCESS
    /\ ppLength r = Z.of_nat (length kept)
    /\ wf (ppInfo r)
    /\ contents (ppInfo r) = kept ++ contents this
    /\ InputBufferSize (ppInfo r) = InputBufferSize this
    /\ InputWaitEvent (ppInfo r) = true.
Proof.
  intros Hwf kept Hkept Hroom Hone Halloc. subst kept.
  unfold PrependInputBuffer.
  destruct (PreprocessInput _ _ _ _) as [kept Flags']. cbn [fst] in *.
  pose proof (ready_events_contents this Hwf) as Hcount.
  pose proof (contents_bound this Hwf) as Hbound.
  pose proof Hwf as (_ & _ & _ & _ & Hcap & Hcapsz & _).
  destruct (Z.eqb_spec (Z.of_nat (length kept)) 0) as [E|_].
  { destruct kept; [congruence|simpl in E; lia]. }
  assert (Hempty : forall that,
            In that = Out that ->
            Coalesce kept (Z.of_nat (length kept)) that = None).
  { intros that E. unfold Coalesce. rewrite E, Z.eqb_refl. cbn [negb].
    now rewrite Bool.andb_false_r. }
  destruct (Z.eqb_spec (GetNumberOfReadyEvents this) 0) as [E0|E0];
    cbn [negb].
  - assert (He : In this = Out this).
    { destruct (Z.eq_dec (In this) (Out this)) as [E|E]; [exact E|].
      apply (ready_events_positive this Hwf) in E. lia. }
    pose proof (proj1 (empty_contents this Hwf) He) as Hq.
    destruct (WriteBuffer_in_place kept this Hwf Hkept Hroom (Hempty _ He))
      as (w & Hw & _ & Hn & Hwf' & Hq' & Hc' & Hsw).
    rewrite Hw, Hsw, He, Z.eqb_refl. eexists. split; [reflexivity|].
    cbn [ppStatus ppLength ppInfo]. rewrite Hq, app_nil_r.
    rewrite Hq in Hq'. cbn [app] in Hq'.
    repeat split; assumption.
  - unfold ULongMult, DWordMult.
    destruct (Z.leb_spec (GetNumberOfReadyEvents this * sizeof_INPUT_RECORD)
                ULONG_MAX); [|zl].
    destruct (operator_new _) eqn:Hnew; [|now destruct (Halloc E0)].
    assert (Hne : In this <> Out this)
      by (apply (ready_events_positive this Hwf); lia).
    destruct (ReadBuffer_unicode (GetNumberOfReadyEvents this) false this
                Hwf Hne) as (Hs & Hbuf & Hr & _ & Hread); [zl|zl|].
    destruct (Hread eq_refl) as (Hwf1 & Hq1 & _).
    destruct (ReadBuffer_frame (GetNumberOfReadyEvents this) false false true
                this) as (_ & _ & _ & _ & _ & Hcap1).
    rewrite Hs, NT_SUCCESS_ok. cbn [negb].
    set (rb := ReadBuffer (GetNumberOfReadyEvents this) false false true this)
      in *.
    rewrite firstn_all2 in Hbuf by zl. rewrite skipn_all2 in Hq1 by zl.
    rewrite Hbuf in Hr.
    assert (He1 : In (rdInfo rb) = Out (rdInfo rb))
      by now apply (empty_contents _ Hwf1).
    destruct (WriteBuffer_in_place kept (rdInfo rb) Hwf1 Hkept)
      as (w1 & Hw1 & _ & Hn1 & Hwfw & Hqw & Hcw & Hsw);
      [rewrite (ready_events_contents _ Hwf1), Hq1, Hcap1;
       cbn [length]; lia
      |exact (Hempty _ He1)|].
    rewrite Hw1, Hr, Hbuf.
    rewrite Hq1 in Hqw. cbn [app] in Hqw.
    assert (Hold : contents this <> [])
      by (intros E; rewrite E in Hcount; cbn [length] in Hcount; lia).
    destruct (WriteBuffer_in_place (contents this) (wrInfo w1) Hwfw Hold)
      as (w2 & Hw2 & _ & Hn2 & Hwf2 & Hq2 & Hc2 & _).
    + rewrite (ready_events_contents _ Hwfw), Hqw, Hcw, Hcap1. lia.
    + unfold Coalesce.
      rewrite (proj2 (Z.eqb_neq (Z.of_nat (length (contents this))) 1))
        by lia.
      reflexivity.
    + rewrite Hw2, Hsw, He1, Z.eqb_refl. eexists. split; [reflexivity|].
      cbn [ppStatus ppLength ppInfo].
      assert (Hq2' : contents (wrInfo w2) = kept ++ contents this)
        by congruence.
      assert (Hc2' : InputBufferSize (wrInfo w2) = InputBufferSize this)
        by congruence.
      repeat split; assumption.
Qed.

Lemma load_poke_apart blk p r q n :
  p + sizeof_INPUT_RECORD <= q \/ q + sizeof_INPUT_RECORD * Z.of_nat n <= p ->
  load (poke p r blk) q n = load blk q n.
Proof.
  intros H. change (poke p r blk) with (memmove_in p [r] blk).
  apply load_memmove_in_apart. cbn [length]. zl.
Qed.

Lemma load_poke_last blk r q n :
  load (poke (q + sizeof_INPUT_RECORD * Z.of_nat n) r blk) q (S n)
  = load blk q n ++ [r]
  /\ load blk q (S n)
     = load blk q n ++ [cell blk (q + sizeof_INPUT_RECORD * Z.of_nat n)].
Proof.
  replace (S n) with (n + 1)%nat by lia. rewrite !load_app. split.
  - f_equal; [apply load_poke_apart; zl|].
    cbn [load cell poke]. now rewrite Z.eqb_refl.
  - reflexivity.
Qed.

(** X15.  [LastInputEvent] is the address of the last record of the
    queue, also when the write cursor stands at the start of the store;
    a write that is merged replaces that record and nothing else of the
    queue. *)
Theorem Coalesce_replaces_last Buffer Length this this' :
  wf this ->
  Coalesce Buffer Length this = Some this' ->
  contents this
  = removelast (contents this)
    ++ [cell (InputBuffer this) (LastInputEvent this)]
  /\ contents this'
     = removelast (contents this)
       ++ [cell (InputBuffer this') (LastInputEvent this)]
  /\ wf this'
  /\ LastInputEvent this' = LastInputEvent this.
Proof.
  intros Hwf Hco.
  destruct (Coalesce_frame _ _ _ _ Hco) as (_ & Hne & r & ->).
  pose proof Hwf as (i & o & HF & HL & Hcap & Hsz & HI & Hi & HO & Ho).
  split; [|split; [|split; [now apply wf_poke|reflexivity]]].
  - rewrite (contents_index this i o HI HO HL). unfold LastInputEvent.
    destruct (Z.eqb_spec (In this) (First this)) as [E0|E0].
    + assert (i = 0) by zl. subst i.
      destruct (Z.ltb_spec 0 o); [|zl].
      cbn [Z.to_nat load]. rewrite app_nil_r.
      replace (Z.to_nat (InputBufferSize this + 1 - o))
        with (S (Z.to_nat (InputBufferSize this - o))) by zl.
      destruct (load_poke_last (InputBuffer this) r (Out this)
                  (Z.to_nat (InputBufferSize this - o))) as [_ E].
      rewrite E, removelast_last. do 3 f_equal. zl.
    + destruct (Z.ltb_spec i o).
      * replace (Z.to_nat i) with (S (Z.to_nat (i - 1))) by zl.
        destruct (load_poke_last (InputBuffer this) r (First this)
                    (Z.to_nat (i - 1))) as [_ E].
        rewrite E, app_assoc, removelast_last. do 3 f_equal. zl.
      * replace (Z.to_nat (i - o)) with (S (Z.to_nat (i - o - 1))) by zl.
        destruct (load_poke_last (InputBuffer this) r (Out this)
                    (Z.to_nat (i - o - 1))) as [_ E].
        rewrite E, removelast_last. do 3 f_equal. zl.
  - rewrite (contents_index this i o HI HO HL).
    rewrite (contents_index _ i o) by (proj; assumption).
    proj. unfold LastInputEvent.
    destruct (Z.eqb_spec (In this) (First this)) as [E0|E0].
    + assert (i = 0) by zl. subst i.
      destruct (Z.ltb_spec 0 o); [|zl].
      cbn [Z.to_nat load]. rewrite !app_nil_r.
      replace (Z.to_nat (InputBufferSize this + 1 - o))
        with (S (Z.to_nat (InputBufferSize this - o))) by zl.
      replace (Last this - sizeof_INPUT_RECORD)
        with (Out this + sizeof_INPUT_RECORD
                         * Z.of_nat (Z.to_nat (InputBufferSize this - o)))
        by zl.
      destruct (load_poke_last (InputBuffer this) r (Out this)
                  (Z.to_nat (InputBufferSize this - o))) as [E1 E2].
      rewrite E1, E2, removelast_last. cbn [cell poke].
      now rewrite Z.eqb_refl.
    + destruct (Z.ltb_spec i o).
      * replace (Z.to_nat i) with (S (Z.to_nat (i - 1))) by zl.
        replace (In this - sizeof_INPUT_RECORD)
          with (First this + sizeof_INPUT_RECORD
                             * Z.of_nat (Z.to_nat (i - 1))) by zl.
        destruct (load_poke_last (InputBuffer this) r (First this)
                    (Z.to_nat (i - 1))) as [E1 E2].
        rewrite E1, E2, !app_assoc, removelast_last.
        rewrite load_poke_apart by zl. cbn [cell poke].
        now rewrite Z.eqb_refl.
      * replace (Z.to_nat (i - o)) with (S (Z.to_nat (i - o - 1))) by zl.
        replace (In this - sizeof_INPUT_RECORD)
          with (Out this + sizeof_INPUT_RECORD
                           * Z.of_nat (Z.to_nat (i - o - 1))) by zl.
        destruct (load_poke_last (InputBuffer this) r (Out this)
                    (Z.to_nat (i - o - 1))) as [E1 E2].
        rewrite E1, E2, removelast_last. cbn [cell poke].
        now rewrite Z.eqb_refl.
Qed.











(** X22.  [GetNumberOfReadyEvents] is the length of the queue, also when
    the data wraps around the end of the store: a number from 0 to
    [InputBufferSize] (one slot of the store always stays free), and 0
    exactly when the two cursors meet. *)
Theorem GetNumberOfReadyEvents_counts this :
  wf this ->
  GetNumberOfReadyEvents this = Z.of_nat (length (contents this))
  /\ 0 <= GetNumberOfReadyEvents this <= InputBufferSize this
  /\ (GetNumberOfReadyEvents this = 0 <-> In this = Out this).
Proof.
  intros Hwf.
  pose proof (ready_events_contents this Hwf) as Hc.
  pose proof (contents_bound this Hwf) as Hb.
  pose proof (ready_events_positive this Hwf) as Hp.
  split; [exact Hc|]. split; [lia|].
  destruct (Z.eq_dec (In this) (Out this)) as [E|E].
  - split; [intros _; exact E|intros _].
    destruct (Z.eq_dec (GetNumberOfReadyEvents this) 0) as [E0|E0];
      [exact E0|].
    exfalso. apply (proj1 Hp); [lia|exact E].
  - split; [intros E0|intros E'; now destruct E].
    apply Hp in E. lia.
Qed.

(** X23.  [PrependInputBuffer] leaves the buffer and the caller's count
    as they are on two paths: with [STATUS_SUCCESS] when
    [PreprocessInput] strips every record (the count passed in is then
    reported, though nothing was written), and with [STATUS_NO_MEMORY]
    when the scratch store for the queued records is not granted. *)
Theorem PrependInputBuffer_nothing_written Flags pInputRecord pcLength this :
  wf this ->
  let kept := fst (PreprocessInput (InputMode this) Flags pInputRecord
                     (Z.to_nat pcLength)) in
  let Flags' := snd (PreprocessInput (InputMode this) Flags pInputRecord
                       (Z.to_nat pcLength)) in
  kept = []
  \/ (GetNumberOfReadyEvents this <> 0
      /\ operator_new (GetNumberOfReadyEvents this * sizeof_INPUT_RECORD)
         = None) ->
  PrependInputBuffer Flags pInputRecord pcLength this
  = Some {| ppStatus := if match kept with [] => true | _ => false end
                        then STATUS_SUCCESS else STATUS_NO_MEMORY;
            ppLength := pcLength; ppFlags := Flags'; ppInfo := this |}.
Proof.
  intros Hwf kept Flags' H. subst kept Flags'.
  unfold PrependInputBuffer.
  destruct (PreprocessInput _ _ _ _) as [kept Flags']. cbn [fst snd] in *.
  destruct kept as [|r kept]; [reflexivity|].
  destruct H as [H|[Hn Hnew]]; [discriminate|].
  cbn [length]. rewrite (proj2 (Z.eqb_neq _ 0)) by lia.
  rewrite (proj2 (Z.eqb_neq _ 0) Hn). cbn [negb].
  pose proof (contents_bound this Hwf) as Hb.
  pose proof (ready_events_contents this Hwf) as Hc.
  pose proof Hwf as (_ & _ & _ & _ & _ & Hsz & _).
  unfold ULongMult, DWordMult.
  destruct (Z.leb_spec (GetNumberOfReadyEvents this * sizeof_INPUT_RECORD)
              ULONG_MAX); [|zl].
  now rewrite Hnew.
Qed.

(** What a write that reaches the append loop stores, by the free slots
    and the answer to the request for a larger store. *)
Lemma WriteBuffer_stores Buffer this :
  0 <= INPUT_BUFFER_SIZE_INCREMENT ->
  wf this ->
  Z.of_nat (length Buffer) * sizeof_INPUT_RECORD <= ULONG_MAX ->
  growth_fits (Z.of_nat (length Buffer)) this ->
  Coalesce Buffer (Z.of_nat (length Buffer)) this = None ->
  exists w,
    WriteBuffer Buffer (Z.of_nat (length Buffer)) this = Some w
    /\ wf (wrInfo w)
    /\ (Z.of_nat (length Buffer)
        <= InputBufferSize this - GetNumberOfReadyEvents this
        \/ NT_SUCCESS (fst (GrowInputBuffer (Z.of_nat (length Buffer)) this))
           = true ->
        wrStatus w = STATUS_SUCCESS
        /\ wrEventsWritten w = Z.of_nat (length Buffer)
        /\ contents (wrInfo w) = contents this ++ Buffer)
    /\ (InputBufferSize this - GetNumberOfReadyEvents this
        < Z.of_nat (length Buffer) ->
        NT_SUCCESS (fst (GrowInputBuffer (Z.of_nat (length Buffer)) this))
        = false ->
        wrEventsWritten w
        = InputBufferSize this - GetNumberOfReadyEvents this
        /\ contents (wrInfo w)
           = contents this
             ++ firstn (Z.to_nat (InputBufferSize this
                                  - GetNumberOfReadyEvents this)) Buffer).
Proof.
  intros Hinc Hwf HLsz Hfit Hco.
  pose proof (ready_events_contents this Hwf) as Hcount.
  pose proof (contents_bound this Hwf) as Hbound.
  destruct (Z_le_gt_dec (Z.of_nat (length Buffer))
              (InputBufferSize this - GetNumberOfReadyEvents this))
    as [Hroom|Hfull].
  - destruct Buffer as [|r Buffer].
    + unfold WriteBuffer. rewrite Hco.
      rewrite WriteLoop_done by (cbn [length]; lia).
      eexists. split; [reflexivity|].
      cbn [wrInfo wrStatus wrEventsWritten writeReturn length].
      split; [exact Hwf|]. split.
      * intros _. rewrite app_nil_r. repeat split.
      * cbn [length] in Hroom. lia.
    + destruct (WriteBuffer_in_place (r :: Buffer) this Hwf
                  ltac:(discriminate) Hroom Hco)
        as (w & Hw & H1 & H2 & H3 & H4 & _).
      exists w. split; [exact Hw|]. split; [exact H3|]. split.
      * intros _. repeat split; assumption.
      * intros Hlt. lia.
  - destruct (WriteBuffer_append Buffer _ this Hinc Hwf eq_refl HLsz Hfit Hco)
      as (w & Hw & P1 & P2 & P3 & _ & _ & _ & P7 & P8).
    pose proof (contents_bound _ P1) as Hb1.
    exists w. split; [exact Hw|]. split; [exact P1|]. split.
    + intros [Hroom|Hgrant]; [lia|].
      destruct P8 as [[Hs Hn]|(Hf & Hst & _)];
        [|rewrite Hst, Hgrant in Hf; discriminate].
      rewrite Hn, Nat2Z.id, firstn_all in P3.
      repeat split; assumption.
    + intros _ Hrefused.
      destruct P8 as [[Hs Hn]|(_ & _ & Hlen & Hcap)].
      * exfalso.
        rewrite Hn, Nat2Z.id, firstn_all in P3.
        rewrite P3, length_app in Hb1.
        destruct P7 as [Hsame|(Hgrant & _)];
          [lia|rewrite Hgrant in Hrefused; discriminate].
      * rewrite P3, length_app, firstn_length_le in Hlen by zl.
        assert (E : wrEventsWritten w
                    = InputBufferSize this - GetNumberOfReadyEvents this)
          by lia.
        split; [exact E|]. rewrite P3, E. reflexivity.
Qed.

(** First-in first-out, for lengths whose byte size fits a [ULONG].
    Along any run of appending writes and non-peek Unicode reads, what
    the buffer held followed by what the writes had to store is what was
    delivered followed by what the buffer holds; every such write
    returns, having stored what it had to; and a write of [Buffer] into
    an empty buffer that has room for it, or is granted the room,
    followed by a read of as many records returns [Buffer]. *)
Theorem fifo_order this :
  0 <= INPUT_BUFFER_SIZE_INCREMENT ->
  wf this ->
  (forall written delivered this',
     Trace this written delivered this' ->
     contents this ++ written = delivered ++ contents this' /\ wf this')
  /\ (forall Buffer,
        Z.of_nat (length Buffer) * sizeof_INPUT_RECORD <= ULONG_MAX ->
        growth_fits (Z.of_nat (length Buffer)) this ->
        Coalesce Buffer (Z.of_nat (length Buffer)) this = None ->
        exists w,
          WriteBuffer Buffer (Z.of_nat (length Buffer)) this = Some w
          /\ wf (wrInfo w)
          /\ (Z.of_nat (length Buffer)
              <= InputBufferSize this - GetNumberOfReadyEvents this
              \/ NT_SUCCESS
                   (fst (GrowInputBuffer (Z.of_nat (length Buffer)) this))
                 = true ->
              wrStatus w = STATUS_SUCCESS
              /\ wrEventsWritten w = Z.of_nat (length Buffer)
              /\ contents (wrInfo w) = contents this ++ Buffer)
          /\ (InputBufferSize this - GetNumberOfReadyEvents this
              < Z.of_nat (length Buffer) ->
              NT_SUCCESS
                (fst (GrowInputBuffer (Z.of_nat (length Buffer)) this))
              = false ->
              wrEventsWritten w
              = InputBufferSize this - GetNumberOfReadyEvents this
              /\ contents (wrInfo w)
                 = contents this
                   ++ firstn (Z.to_nat (InputBufferSize this
                                        - GetNumberOfReadyEvents this))
                        Buffer))
  /\ (forall Buffer,
        In this = Out this -> Buffer <> [] ->
        Z.of_nat (length Buffer) * sizeof_INPUT_RECORD <= ULONG_MAX ->
        growth_fits (Z.of_nat (length Buffer)) this ->
        Z.of_nat (length Buffer) <= InputBufferSize this
        \/ NT_SUCCESS (fst (GrowInputBuffer (Z.of_nat (length Buffer)) this))
           = true ->
        exists w,
          WriteBuffer Buffer (Z.of_nat (length Buffer)) this = Some w
          /\ wrStatus w = STATUS_SUCCESS
          /\ wrEventsWritten w = Z.of_nat (length Buffer)
          /\ contents (wrInfo w) = Buffer
          /\ let r := ReadBuffer (Z.of_nat (length Buffer)) false false true
                        (wrInfo w) in
             rdBuffer r = Buffer
             /\ rdEventsRead r = Z.of_nat (length Buffer)
             /\ rdResetWaitEvent r = true
             /\ contents (rdInfo r) = []).
Proof.
  intros Hinc Hwf. split; [|split].
  - intros written delivered this' Htr. revert Hwf.
    induction Htr as [this|this Buffer w written delivered this'
                           Hco HLsz Hfit Hen Hw Htr IH
                     |this Buffer w written delivered this'
                           Hco HLsz Hfit Hfull Href Hw Htr IH
                     |this Length StreamRead written delivered this'
                           Hne HLen HLsz Htr IH]; intros Hwf.
    + split; [now rewrite app_nil_r|exact Hwf].
    + destruct (WriteBuffer_stores Buffer this Hinc Hwf HLsz Hfit Hco)
        as (w' & Hw' & P1 & P2 & _).
      rewrite Hw in Hw'. injection Hw' as <-.
      destruct (P2 Hen) as (_ & _ & P3).
      destruct (IH P1) as [IH1 IH2]. split; [|exact IH2].
      rewrite <- IH1, P3, app_assoc. reflexivity.
    + destruct (WriteBuffer_stores Buffer this Hinc Hwf HLsz Hfit Hco)
        as (w' & Hw' & P1 & _ & P2).
      rewrite Hw in Hw'. injection Hw' as <-.
      destruct (P2 Hfull Href) as (_ & P3).
      destruct (IH P1) as [IH1 IH2]. split; [|exact IH2].
      rewrite <- IH1, P3, app_assoc. reflexivity.
    + pose proof (ReadBuffer_wf Length false StreamRead true this Hwf Hne
                    HLen HLsz) as Hwf1.
      destruct (IH Hwf1) as [IH1 IH2]. split; [|exact IH2].
      rewrite <- app_assoc, <- IH1, app_assoc.
      f_equal. symmetry. now apply ReadBuffer_fifo.
  - intros Buffer HLsz Hfit Hco.
    exact (WriteBuffer_stores Buffer this Hinc Hwf HLsz Hfit Hco).
  - intros Buffer Hemp Hnn HLsz Hfit Hen.
    assert (Hco : Coalesce Buffer (Z.of_nat (length Buffer)) this = None).
    { unfold Coalesce. rewrite Hemp, Z.eqb_refl, andb_false_r. reflexivity. }
    pose proof (proj1 (empty_contents this Hwf) Hemp) as Hq.
    pose proof (ready_events_contents this Hwf) as Hcount.
    rewrite Hq in Hcount. cbn [length] in Hcount.
    destruct (WriteBuffer_stores Buffer this Hinc Hwf HLsz Hfit Hco)
      as (w & Hw & P1 & P2 & _).
    destruct P2 as (Hs & Hall & P3);
      [destruct Hen as [Hroom|Hgrant]; [left; lia|right; exact Hgrant]|].
    rewrite Hq in P3. cbn [app] in P3.
    exists w. split; [exact Hw|]. split; [exact Hs|]. split; [exact Hall|].
    split; [exact P3|].
    assert (Hne : In (wrInfo w) <> Out (wrInfo w)).
    { intros Heq. apply (empty_contents _ P1) in Heq. congruence. }
    destruct (ReadBuffer_unicode (Z.of_nat (length Buffer)) false (wrInfo w)
                P1 Hne ltac:(lia) HLsz) as (_ & Hbuf & Hn & _ & Hread).
    destruct (Hread eq_refl) as (Hwf2 & Hrest & _).
    destruct (ReadBuffer_frame (Z.of_nat (length Buffer)) false false true
                (wrInfo w)) as (Hreset & _).
    rewrite P3, Nat2Z.id in *. rewrite firstn_all in Hbuf.
    rewrite skipn_all in Hrest.
    cbv zeta. repeat split; try assumption.
    + rewrite Hn, Hbuf. reflexivity.
    + rewrite Hreset. apply Z.eqb_eq. symmetry.
      now apply (empty_contents _ Hwf2).
Qed.


End Proofs.

(** ** The invalid region *)

Section InvalidRegion.
Import VtRenderer.

Lemma OrViewports_least a b :
  covers (OrViewports a b) a /\ covers (OrViewports a b) b
  /\ (forall r, covers r a -> covers r b -> covers r (OrViewports a b)).
Proof.
  unfold covers, OrViewports. cbn [ToExclusive Left Top Right Bottom].
  repeat split; intros; lia.
Qed.

Lemma small_rect_eq a b :
  Left a = Left b -> Top a = Top b -> Right a = Right b ->
  Bottom a = Bottom b -> a = b.
Proof. destruct a, b. cbn. now intros -> -> -> ->. Qed.

(** Clipping the bounding rectangle of an already clipped rectangle and
    another one is clipping the bounding rectangle of the two. *)
Lemma TrimToViewport_OrViewports v a b :
  TrimToViewport (ToOrigin v)
    (ToExclusive (OrViewports
                    (FromExclusive (TrimToViewport (ToOrigin v)
                                      (ToExclusive a))) b))
  = TrimToViewport (ToOrigin v) (ToExclusive (OrViewports a b)).
Proof.
  apply small_rect_eq;
    unfold TrimToViewport, OrViewports, ToOrigin;
    cbn [ToExclusive Left Top Right Bottom]; lia.
Qed.

(** C8.  [Invalidate(A)] then [Invalidate(B)] on an engine with no
    invalid region yet: the region is in use and is the smallest rectangle
    covering [A] and [B], clipped to the viewport moved to the origin;
    the clipping is applied by either call. *)
Theorem invalidate_twice_bounding_rectangle A B this :
  _fInvalidRectUsed this = false ->
  let once := snd (Invalidate A this) in
  let twice := snd (Invalidate B once) in
  fst (Invalidate A this) = S_OK
  /\ fst (Invalidate B once) = S_OK
  /\ _fInvalidRectUsed once = true
  /\ ToExclusive (_invalidRect once)
     = TrimToViewport (ToOrigin (_lastViewport this)) A
  /\ _fInvalidRectUsed twice = true
  /\ ToExclusive (_invalidRect twice)
     = TrimToViewport (ToOrigin (_lastViewport this))
         (ToExclusive (OrViewports (FromExclusive A) (FromExclusive B)))
  /\ _lastViewport twice = _lastViewport this
  /\ covers (OrViewports (FromExclusive A) (FromExclusive B))
       (FromExclusive A)
  /\ covers (OrViewports (FromExclusive A) (FromExclusive B))
       (FromExclusive B)
  /\ (forall r, covers r (FromExclusive A) -> covers r (FromExclusive B) ->
        covers r (OrViewports (FromExclusive A) (FromExclusive B))).
Proof.
  intros Hfresh.
  unfold Invalidate, _InvalidCombine, _InvalidRestrict.
  rewrite Hfresh.
  cbn [negb fst snd _invalidRect _fInvalidRectUsed _lastViewport S_OK
       Z.ltb Z.compare ToExclusive].
  do 5 (split; [reflexivity|]).
  split; [exact (TrimToViewport_OrViewports (_lastViewport this)
                   (FromExclusive A) (FromExclusive B))|].
  split; [reflexivity|]. apply OrViewports_least.
Qed.

Lemma engine_eq a b :
  ToExclusive (_invalidRect a) = ToExclusive (_invalidRect b) ->
  _fInvalidRectUsed a = _fInvalidRectUsed b ->
  _lastViewport a = _lastViewport b -> a = b.
Proof.
  destruct a as [[ra] ua va], b as [[rb] ub vb].
  cbn [ToExclusive _invalidRect _fInvalidRectUsed _lastViewport].
  now intros -> -> ->.
Qed.

Ltac rects :=
  unfold Invalidate, InvalidateAll, _InvalidCombine, _InvalidRestrict,
    TrimToViewport, OrViewports, ToOrigin, covers;
  repeat (cbn [negb fst snd _invalidRect _fInvalidRectUsed _lastViewport
               S_OK Z.ltb Z.compare ToExclusive Left Top Right Bottom];
          match goal with
          | |- context [negb (_fInvalidRectUsed ?e)] =>
              is_var e; destruct (_fInvalidRectUsed e)
          end);
  cbn [negb fst snd _invalidRect _fInvalidRectUsed _lastViewport S_OK
       Z.ltb Z.compare ToExclusive Left Top Right Bottom].

(** X17.  [InvalidateAll] makes the whole viewport, moved to the origin,
    the invalid region, whatever the region was; an [Invalidate] after
    it changes nothing. *)
Theorem InvalidateAll_whole_viewport this :
  fst (InvalidateAll this) = S_OK
  /\ _invalidRect (snd (InvalidateAll this)) = ToOrigin (_lastViewport this)
  /\ _fInvalidRectUsed (snd (InvalidateAll this)) = true
  /\ _lastViewport (snd (InvalidateAll this)) = _lastViewport this
  /\ (forall psrRegion,
        snd (Invalidate psrRegion (snd (InvalidateAll this)))
        = snd (InvalidateAll this)).
Proof.
  split; [rects; reflexivity|].
  split; [rects; f_equal; apply small_rect_eq;
          cbn [Left Top Right Bottom]; lia|].
  split; [rects; reflexivity|].
  split; [rects; reflexivity|].
  intros psrRegion. apply engine_eq; rects; try reflexivity;
    apply small_rect_eq; cbn [Left Top Right Bottom]; lia.
Qed.

(** X18.  The order of two [Invalidate] calls does not matter, whether
    or not a region is in use already. *)
Theorem Invalidate_commutes A B this :
  snd (Invalidate B (snd (Invalidate A this)))
  = snd (Invalidate A (snd (Invalidate B this))).
Proof.
  apply engine_eq; rects; try reflexivity;
    apply small_rect_eq; cbn [Left Top Right Bottom]; lia.
Qed.


Lemma InvalidateCursor_runs cs : forall this,
  _skipCursor this = false ->
  _virtualTop (fold_left (fun e c => snd (InvalidateCursor c e)) cs this)
  = fold_left (fun t c => Z.min t (Y c)) cs (_virtualTop this)
  /\ _skipCursor (fold_left (fun e c => snd (InvalidateCursor c e)) cs this)
     = false.
Proof.
  induction cs as [|c cs IH]; intros this Hskip; cbn [fold_left];
    [split; [reflexivity|exact Hskip]|].
  destruct (IH (snd (InvalidateCursor c this)) eq_refl) as [E1 E2].
  rewrite E1, E2. split; [|reflexivity].
  f_equal. unfold InvalidateCursor. rewrite Hskip.
  cbn [negb andb snd _virtualTop].
  rewrite Z.gtb_ltb. destruct (Z.ltb_spec (Y c) (_virtualTop this)); lia.
Qed.

(** X20.  Over a run of [InvalidateCursor] calls the virtual top moves
    up to the topmost row the cursor was reported on, and never down;
    the first report after the cursor was inherited is not counted.
    After any call the skip flag is off and the cursor counts as moved. *)
Theorem InvalidateCursor_virtual_top cs this :
  let final := fold_left (fun e c => snd (InvalidateCursor c e)) cs this in
  _virtualTop final
  = fold_left (fun t c => Z.min t (Y c))
      (if _skipCursor this then tl cs else cs) (_virtualTop this)
  /\ _virtualTop final <= _virtualTop this
  /\ _skipCursor final
     = match cs with [] => _skipCursor this | _ => false end
  /\ _cursorMoved final
     = match cs with [] => _cursorMoved this | _ => true end.
Proof.
  cbv zeta.
  assert (Hdown : forall l t,
            fold_left (fun t c => Z.min t (Y c)) l t <= t).
  { induction l as [|c l IH]; intros t; cbn [fold_left]; [lia|].
    specialize (IH (Z.min t (Y c))). lia. }
  assert (Hmoved : forall l e,
            _cursorMoved e = true ->
            _cursorMoved (fold_left (fun e c => snd (InvalidateCursor c e))
                            l e) = true).
  { induction l as [|c l IH]; intros e He; cbn [fold_left];
      [exact He|now apply IH]. }
  destruct cs as [|c cs].
  - cbn [fold_left tl]. destruct (_skipCursor this); cbn [fold_left];
      repeat split; lia.
  - cbn [fold_left tl].
    destruct (InvalidateCursor_runs cs (snd (InvalidateCursor c this))
                eq_refl) as [E1 E2].
    rewrite E1, E2, Hmoved by reflexivity.
    unfold InvalidateCursor.
    destruct (_skipCursor this); cbn [negb andb snd _virtualTop fold_left].
    + repeat split. apply Hdown.
    + rewrite Z.gtb_ltb.
      destruct (Z.ltb_spec (Y c) (_virtualTop this)) as [Hlt|Hge].
      * replace (Z.min (_virtualTop this) (Y c)) with (Y c) by lia.
        repeat split.
        pose proof (Hdown cs (Y c)). lia.
      * replace (Z.min (_virtualTop this) (Y c)) with (_virtualTop this)
          by lia.
        repeat split. apply Hdown.
Qed.

End InvalidRegion.

(** ** The mouse button helper *)

Section MouseButtons.
Import WindowIo.

Lemma land_pow2 s k :
  0 <= k -> (Z.land s (2 ^ k) =? 0) = negb (Z.testbit s k).
Proof.
  intros Hk.
  assert (E : Z.land s (2 ^ k) = if Z.testbit s k then 2 ^ k else 0).
  { apply Z.bits_inj'. intros m Hm.
    rewrite Z.land_spec, Z.pow2_bits_eqb by assumption.
    destruct (Z.eqb_spec k m) as [<-|Hne].
    - destruct (Z.testbit s k); cbn [andb].
      + rewrite Z.pow2_bits_eqb by assumption. now rewrite Z.eqb_refl.
      + now rewrite Z.bits_0.
    - rewrite Bool.andb_false_r.
      destruct (Z.testbit s k).
      + rewrite Z.pow2_bits_eqb by assumption.
        symmetry. now apply Z.eqb_neq.
      + now rewrite Z.bits_0. }
  rewrite E. destruct (Z.testbit s k); cbn [negb].
  - apply Z.eqb_neq. pose proof (Z.pow_pos_nonneg 2 k). lia.
  - reflexivity.
Qed.

(** X21.  [ConvertMouseButtonState] sets, bit by bit: the left, right
    and middle button bits of the result are those of [Flag] or the
    buttons held in [State]; every other bit is as in [Flag], and no bit
    of [Flag] is cleared. *)
Theorem ConvertMouseButtonState_bits Flag State (n : nat) :
  Z.testbit (ConvertMouseButtonState Flag State) (Z.of_nat n)
  = Z.testbit Flag (Z.of_nat n)
    || match n with
       | 0%nat => Z.testbit State 0
       | 1%nat => Z.testbit State 1
       | 2%nat => Z.testbit State 4
       | _ => false
       end.
Proof.
  unfold ConvertMouseButtonState, MK_LBUTTON, MK_RBUTTON, MK_MBUTTON,
    FROM_LEFT_1ST_BUTTON_PRESSED, RIGHTMOST_BUTTON_PRESSED,
    FROM_LEFT_2ND_BUTTON_PRESSED.
  assert (E0 : (Z.land State 1 =? 0) = negb (Z.testbit State 0))
    by (apply (land_pow2 State 0); lia).
  assert (E4 : (Z.land State 16 =? 0) = negb (Z.testbit State 4))
    by (apply (land_pow2 State 4); lia).
  assert (E1 : (Z.land State 2 =? 0) = negb (Z.testbit State 1))
    by (apply (land_pow2 State 1); lia).
  rewrite E0, E4, E1, !Bool.negb_involutive.
  assert (B1 : Z.testbit 1 (Z.of_nat n) = (0 =? Z.of_nat n))
    by (apply (Z.pow2_bits_eqb 0); lia).
  assert (B2 : Z.testbit 2 (Z.of_nat n) = (1 =? Z.of_nat n))
    by (apply (Z.pow2_bits_eqb 1); lia).
  assert (B4 : Z.testbit 4 (Z.of_nat n) = (2 =? Z.of_nat n))
    by (apply (Z.pow2_bits_eqb 2); lia).
  destruct (Z.testbit State 0), (Z.testbit State 4), (Z.testbit State 1);
    rewrite ?Z.lor_spec, ?B1, ?B2, ?B4;
    destruct n as [|[|[|n]]];
    repeat match goal with
    | |- context [?a =? ?b] =>
        first [ rewrite (proj2 (Z.eqb_eq a b)) by lia
              | rewrite (proj2 (Z.eqb_neq a b)) by lia ]
    end;
    now destruct (Z.testbit Flag _).
Qed.

End MouseButtons.

(** ** The theorems at the sample host and buffers *)

Ltac sample_wf i o :=
  exists i, o; repeat split; try reflexivity; vm_compute; congruence.

Lemma sample_buffer_wf r queued :
  0 <= queued <= 2 -> wf (sample_buffer r queued).
Proof.
  intros H. exists queued, 0. unfold sample_buffer.
  cbn [First Last In Out InputBuffer InputBufferSize base].
  repeat split; try reflexivity; try zl.
Qed.



(** The stream branch at a key event with repeat count 3: one read
    leaves the buffer empty, and does so under [Peek] too. *)
Lemma stream_read_removes_key_record :
  let this := sample_buffer (sample_key 65 3) 1 in
  let r := ReadBuffer (host := sample_host true) 1 false true true this in
  let p := ReadBuffer (host := sample_host true) 1 true true true this in
  contents this = [sample_key 65 3]
  /\ GetNumberOfReadyEvents this = 1
  /\ rdEventsRead r = 1
  /\ rdBuffer r = [sample_key 65 3]
  /\ contents (rdInfo r) = []
  /\ GetNumberOfReadyEvents (rdInfo r) = 0
  /\ contents (rdInfo r) <> contents this
  /\ GetNumberOfReadyEvents (rdInfo p) = 0.
Proof.
  vm_compute. repeat split; try reflexivity. discriminate.
Qed.

Lemma stream_read_takes_key_record_witness :
  let this := sample_buffer (sample_key 65 3) 1 in
  let r := ReadBuffer (host := sample_host true) 1 true true true this in
  rdStatus r = STATUS_SUCCESS
  /\ rdEventsRead r = 1
  /\ rdBuffer r = [cell (InputBuffer this) (Out this)]
  /\ contents this = cell (InputBuffer this) (Out this) :: contents (rdInfo r)
  /\ GetNumberOfReadyEvents (rdInfo r) = GetNumberOfReadyEvents this - 1
  /\ InputBuffer (rdInfo r) = InputBuffer this
  /\ Out (rdInfo r)
     = (if Last this =? Out this + sizeof_INPUT_RECORD
        then First this else Out this + sizeof_INPUT_RECORD).
Proof.
  apply (stream_read_takes_key_record (host := sample_host true) 1 true true
           (sample_buffer (sample_key 65 3) 1)).
  - apply sample_buffer_wf. lia.
  - vm_compute. congruence.
  - reflexivity.
Defined.

Lemma sample_growth_fits memory Length r queued :
  0 <= Length <= 1000 ->
  growth_fits (host := sample_host memory) Length (sample_buffer r queued).
Proof.
  intros H. apply (growth_fits_bound (host := sample_host memory)).
  - lia.
  - vm_compute. congruence.
  - vm_compute. congruence.
  - cbn [InputBufferSize sample_buffer INPUT_BUFFER_SIZE_INCREMENT
         sample_host]. zl.
Qed.

Lemma fifo_order_witness :
  exists w,
    WriteBuffer (host := sample_host true) sample_records 3
      (sample_buffer blank_record 0) = Some w
    /\ wrStatus w = STATUS_SUCCESS
    /\ wrEventsWritten w = 3
    /\ contents (wrInfo w) = sample_records
    /\ let r := ReadBuffer (host := sample_host true) 3 false false true
                  (wrInfo w) in
       rdBuffer r = sample_records
       /\ rdEventsRead r = 3
       /\ rdResetWaitEvent r = true
       /\ contents (rdInfo r) = [].
Proof.
  refine (proj2 (proj2 (fifo_order (host := sample_host true)
                          (sample_buffer blank_record 0) _ _))
            sample_records _ _ _ _ _).
  - vm_compute. congruence.
  - apply sample_buffer_wf. lia.
  - reflexivity.
  - discriminate.
  - vm_compute. congruence.
  - apply sample_growth_fits. simpl. lia.
  - right. reflexivity.
Defined.

Lemma mouse_move_coalesce_witness :
  let this := sample_buffer (MOUSE_EVENT (sample_mouse_record 5 5)) 1 in
  exists w,
    WriteBuffer (host := sample_host true)
      [MOUSE_EVENT (sample_mouse_record 6 6)] 1 this = Some w
    /\ wrStatus w = STATUS_SUCCESS
    /\ wrEventsWritten w = 1
    /\ In (wrInfo w) = In this
    /\ Out (wrInfo w) = Out this
    /\ InputBufferSize (wrInfo w) = InputBufferSize this
    /\ GetNumberOfReadyEvents (wrInfo w) = GetNumberOfReadyEvents this
    /\ cell (InputBuffer (wrInfo w)) (LastInputEvent this)
       = MOUSE_EVENT (sample_mouse_record 6 6)
    /\ (forall q, q <> LastInputEvent this ->
          cell (InputBuffer (wrInfo w)) q = cell (InputBuffer this) q).
Proof.
  apply (mouse_move_coalesce (host := sample_host true)
           (sample_mouse_record 6 6) (sample_mouse_record 5 5)
           (sample_buffer (MOUSE_EVENT (sample_mouse_record 5 5)) 1)).
  - vm_compute. congruence.
  - reflexivity.
  - reflexivity.
  - reflexivity.
Defined.

Lemma key_repeat_coalesce_witness :
  let this := sample_buffer (sample_key 65 1) 1 in
  exists lk w,
    cell (InputBuffer this) (LastInputEvent this) = KEY_EVENT lk
    /\ WriteBuffer (host := sample_host true)
         [KEY_EVENT (sample_key_record 65 3)] 1 this = Some w
    /\ wrEventsWritten w = 1
    /\ GetNumberOfReadyEvents (wrInfo w) = GetNumberOfReadyEvents this
    /\ cell (InputBuffer (wrInfo w)) (LastInputEvent this)
       = sample_key 65 4.
Proof.
  destruct (proj1 (key_repeat_coalesce (host := sample_host true)
                     (sample_key_record 65 3)
                     (sample_buffer (sample_key 65 1) 1)
                     ltac:(vm_compute; congruence) eq_refl eq_refl))
    as (lk & w & H1 & H2 & _ & H4 & _ & _ & _ & H8 & H9 & _).
  - right. repeat split; reflexivity.
  - exists lk, w. repeat split; try assumption.
    rewrite H9. change (cell _ _) with (sample_key 65 1) in H1.
    injection H1 as <-. reflexivity.
Defined.

Lemma wait_signal_invariant_witness :
  let this := sample_buffer (sample_key 65 1) 1 in
  wf (snd (FlushAllButKeys (host := sample_host true) this))
  /\ signal_ok (snd (FlushAllButKeys (host := sample_host true) this)).
Proof.
  refine (proj2 (proj2 (proj2
            (wait_signal_invariant (host := sample_host true)
               (sample_buffer (sample_key 65 1) 1) _ _ _)))).
  - vm_compute. congruence.
  - apply sample_buffer_wf. lia.
  - split; reflexivity.
Defined.

Lemma WriteBuffer_growth_failure_witness :
  let this := sample_buffer (sample_key 65 1) 1 in
  exists w,
    WriteBuffer (host := sample_host false) sample_records 3 this = Some w
    /\ wrStatus w = STATUS_NO_MEMORY
    /\ wrEventsWritten w = 1
    /\ contents (wrInfo w) = [sample_key 65 1; sample_key 65 1]
    /\ InputBufferSize (wrInfo w) = 2.
Proof.
  destruct (WriteBuffer_growth_failure (host := sample_host false)
              sample_records 3 (sample_buffer (sample_key 65 1) 1))
    as (w & H1 & H2 & _ & H4 & H5 & H6 & _).
  - vm_compute. congruence.
  - apply sample_buffer_wf. lia.
  - reflexivity.
  - vm_compute. congruence.
  - vm_compute. congruence.
  - reflexivity.
  - vm_compute. reflexivity.
  - reflexivity.
  - exists w. repeat split; try assumption.
    rewrite H5, H4. reflexivity.
Defined.

Lemma invalidate_twice_bounding_rectangle_witness :
  let A := VtRenderer.Build_SMALL_RECT (-2) 1 10 5 in
  let B := VtRenderer.Build_SMALL_RECT 70 3 90 40 in
  VtRenderer.ToExclusive
    (VtRenderer._invalidRect
       (snd (VtRenderer.Invalidate B
               (snd (VtRenderer.Invalidate A sample_engine)))))
  = VtRenderer.Build_SMALL_RECT 0 1 80 25.
Proof.
  pose proof (invalidate_twice_bounding_rectangle
                (VtRenderer.Build_SMALL_RECT (-2) 1 10 5)
                (VtRenderer.Build_SMALL_RECT 70 3 90 40)
                sample_engine eq_refl) as H.
  cbv zeta in H. destruct H as (_ & _ & _ & _ & _ & H & _).
  cbv zeta. rewrite H. reflexivity.
Defined.


Lemma key_repeat_count_wraps_witness :
  let this := sample_buffer (sample_key 65 65535) 1 in
  exists w,
    WriteBuffer (host := sample_host true)
      [KEY_EVENT (sample_key_record 65 1)] 1 this = Some w
    /\ wrStatus w = STATUS_SUCCESS
    /\ cell (InputBuffer (wrInfo w)) (LastInputEvent this) = sample_key 65 0.
Proof.
  destruct (key_repeat_count_wraps (host := sample_host true)
              (sample_key_record 65 1) (sample_key_record 65 65535)
              (sample_buffer (sample_key 65 65535) 1))
    as (lk' & w & H1 & H2 & H3 & _ & H5).
  - vm_compute. congruence.
  - reflexivity.
  - reflexivity.
  - reflexivity.
  - right. repeat split; reflexivity.
  - exists w. split; [exact H1|]. split; [exact H2|].
    rewrite H3. f_equal.
    revert H1. vm_compute. intros H1. injection H1 as <-.
    revert H3. vm_compute. intros H3. injection H3 as <-. reflexivity.
Defined.

(** ** Further properties at the sample host and buffers *)

Lemma sample_queue_wf rs cap :
  1 <= cap -> Z.of_nat (length rs) <= cap ->
  sizeof_INPUT_RECORD * (cap + 1) <= ULONG_MAX ->
  wf (sample_queue rs cap).
Proof.
  intros Hcap Hlen Hsz. exists (Z.of_nat (length rs)), 0.
  unfold sample_queue.
  cbn [First Last In Out InputBuffer InputBufferSize].
  rewrite base_memmove_in. cbn [base].
  repeat split; try reflexivity; try zl.
Qed.

Lemma INPUT_INFORMATION_new_empty_witness :
  exists this,
    INPUT_INFORMATION_new (host := sample_host true) 0 true = Some this
    /\ wf this
    /\ contents this = []
    /\ InputWaitEvent this = true
    /\ InputBufferSize this = 50.
Proof.
  eexists. split; [reflexivity|].
  assert (Hc : 0 <= 0 <= ULONG_MAX) by (vm_compute; split; congruence).
  assert (Hd : 1 <= DEFAULT_NUMBER_OF_EVENTS (Host := sample_host true))
    by (vm_compute; congruence).
  assert (Hs : sizeof_INPUT_RECORD
               * (DEFAULT_NUMBER_OF_EVENTS (Host := sample_host true) + 1)
               <= ULONG_MAX) by (vm_compute; congruence).
  destruct (INPUT_INFORMATION_new_empty (host := sample_host true) 0 true _
              Hc Hd Hs eq_refl) as (H1 & H2 & _ & H4 & H5).
  repeat split; assumption.
Defined.

Lemma flush_and_reinitialize_empty_witness :
  let this := sample_buffer (sample_key 65 1) 1 in
  contents this = [sample_key 65 1]
  /\ contents (FlushInputBuffer this) = []
  /\ InputWaitEvent (FlushInputBuffer this) = false
  /\ InputBufferSize (FlushInputBuffer this) = 2.
Proof.
  cbv zeta.
  destruct (flush_and_reinitialize_empty (sample_buffer (sample_key 65 1) 1))
    as [(_ & H2 & _ & H4 & H5 & _) _].
  - apply sample_buffer_wf. lia.
  - repeat split; assumption.
Defined.

Lemma FlushAllButKeys_keeps_keys_witness :
  let this := sample_queue
                [sample_key 65 1; MOUSE_EVENT (sample_mouse_record 1 2);
                 sample_key 66 1; sample_key 67 1] 4 in
  contents (snd (FlushAllButKeys (host := sample_host true) this))
  = [sample_key 65 1; sample_key 66 1; sample_key 67 1].
Proof.
  cbv zeta.
  destruct (FlushAllButKeys_keeps_keys (host := sample_host true)
              (sample_queue
                 [sample_key 65 1; MOUSE_EVENT (sample_mouse_record 1 2);
                  sample_key 66 1; sample_key 67 1] 4)) as [H _].
  - apply sample_queue_wf; vm_compute; congruence.
  - reflexivity.
  - rewrite H. reflexivity.
Defined.

Lemma FlushAllButKeys_failure_witness :
  let this := sample_buffer (sample_key 65 1) 1 in
  FlushAllButKeys (host := sample_host false) this = (STATUS_NO_MEMORY, this).
Proof.
  cbv zeta.
  destruct (FlushAllButKeys_failure (host := sample_host false)
              (sample_buffer (sample_key 65 1) 1)) as (H1 & H2 & _).
  - apply sample_buffer_wf. lia.
  - vm_compute. discriminate.
  - rewrite (surjective_pairing
               (FlushAllButKeys (host := sample_host false)
                  (sample_buffer (sample_key 65 1) 1))), H1, H2.
    reflexivity.
Defined.



Lemma ReadInputBuffer_empty_witness :
  let this := sample_buffer blank_record 0 in
  let r := ReadInputBuffer (host := sample_host true) 1 false true false 7
             CONSOLE_STATUS_WAIT true this in
  riRecords r = [] /\ riInfo r = this
  /\ riStatus r = CONSOLE_STATUS_WAIT /\ riReadCount r = 8.
Proof.
  cbv zeta.
  destruct (ReadInputBuffer_empty (host := sample_host true) 1 false true
              false 7 CONSOLE_STATUS_WAIT true (sample_buffer blank_record 0))
    as (H1 & _ & H3 & H4 & H5).
  - reflexivity.
  - right. reflexivity.
  - repeat split; assumption.
Defined.


Lemma WriteBuffer_fits_witness :
  let this := sample_queue [MOUSE_EVENT (sample_mouse_record 1 2)] 4 in
  exists w,
    WriteBuffer (host := sample_host false) sample_records 3 this = Some w
    /\ wrStatus w = STATUS_SUCCESS
    /\ wrEventsWritten w = 3
    /\ contents (wrInfo w)
       = MOUSE_EVENT (sample_mouse_record 1 2) :: sample_records
    /\ InputBufferSize (wrInfo w) = 4.
Proof.
  cbv zeta.
  destruct (WriteBuffer_fits (host := sample_host false) sample_records
              (sample_queue [MOUSE_EVENT (sample_mouse_record 1 2)] 4))
    as (w & H1 & H2 & H3 & _ & H5 & H6 & _).
  - apply sample_queue_wf; vm_compute; congruence.
  - discriminate.
  - vm_compute. congruence.
  - reflexivity.
  - exists w. split; [exact H1|]. split; [exact H2|]. split; [exact H3|].
    split; [rewrite H5; reflexivity|exact H6].
Defined.


Lemma PreprocessInput_passes_all_witness :
  PreprocessInput (host := sample_host true) 0 0 sample_records 2
  = ([sample_key 65 1; sample_key 66 1], 0).
Proof.
  apply (PreprocessInput_passes_all (host := sample_host true) 0 0 2
           sample_records); reflexivity.
Defined.


Lemma PrependInputBuffer_in_front_witness :
  let this := sample_queue
                [MOUSE_EVENT (sample_mouse_record 1 2);
                 MOUSE_EVENT (sample_mouse_record 3 4)] 6 in
  exists r,
    PrependInputBuffer (host := sample_host true) 0 sample_records 3 this
    = Some r
    /\ ppStatus r = STATUS_SUCCESS
    /\ ppLength r = 3
    /\ contents (ppInfo r)
       = sample_records ++ [MOUSE_EVENT (sample_mouse_record 1 2);
                            MOUSE_EVENT (sample_mouse_record 3 4)]
    /\ InputBufferSize (ppInfo r) = 6.
Proof.
  cbv zeta.
  destruct (PrependInputBuffer_in_front (host := sample_host true) 0
              sample_records 3
              (sample_queue
                 [MOUSE_EVENT (sample_mouse_record 1 2);
                  MOUSE_EVENT (sample_mouse_record 3 4)] 6))
    as (r & H1 & H2 & H3 & _ & H5 & H6 & _).
  - apply sample_queue_wf; vm_compute; congruence.
  - discriminate.
  - vm_compute. congruence.
  - vm_compute. congruence.
  - intros _. discriminate.
  - exists r. split; [exact H1|]. split; [exact H2|].
    split; [rewrite H3; reflexivity|].
    split; [rewrite H5; reflexivity|exact H6].
Defined.

Lemma Coalesce_replaces_last_witness :
  let this := sample_buffer (sample_key 65 1) 1 in
  exists this',
    Coalesce (host := sample_host true) [sample_key 65 2] 1 this = Some this'
    /\ contents this = [sample_key 65 1]
    /\ contents this' = [sample_key 65 3].
Proof.
  cbv zeta. eexists. split; [reflexivity|].
  destruct (Coalesce_replaces_last (host := sample_host true)
              [sample_key 65 2] 1 (sample_buffer (sample_key 65 1) 1) _
              (sample_buffer_wf (sample_key 65 1) 1 ltac:(lia)) eq_refl)
    as (H1 & H2 & _).
  split; [rewrite H1; reflexivity|rewrite H2; reflexivity].
Defined.


Lemma GetNumberOfReadyEvents_counts_witness :
  let this := sample_queue sample_records 4 in
  GetNumberOfReadyEvents this = 3 /\ contents this = sample_records.
Proof.
  cbv zeta.
  destruct (GetNumberOfReadyEvents_counts (sample_queue sample_records 4))
    as (H1 & _).
  - apply sample_queue_wf; vm_compute; congruence.
  - split; [rewrite H1|]; reflexivity.
Defined.

Lemma PrependInputBuffer_nothing_written_witness :
  let this := sample_buffer (sample_key 65 1) 1 in
  PrependInputBuffer (host := sample_host false) 0 sample_records 3 this
  = Some {| ppStatus := STATUS_NO_MEMORY; ppLength := 3; ppFlags := 0;
            ppInfo := this |}.
Proof.
  cbv zeta.
  rewrite (PrependInputBuffer_nothing_written (host := sample_host false) 0
             sample_records 3 (sample_buffer (sample_key 65 1) 1)).
  - reflexivity.
  - apply sample_buffer_wf. lia.
  - right. split; [vm_compute; congruence|reflexivity].
Defined.

(** C3.  A read whose length in bytes does not fit a [ULONG] breaks the
    order of delivery: [ReadBuffer] computes
    [Length * sizeof(INPUT_RECORD)] unchecked, where its siblings use
    [DWordMult] and [ULongMult].  After the keys A and B are written to
    an empty buffer, a read of 214748365 records (4 bytes, modulo 2^32)
    hands out nothing and moves [Out] 4 bytes into the first record; the
    read of 2 records that follows hands out one record, taken from
    between two slots, and leaves the buffer empty: two records written,
    one delivered, and not one of those written. *)
Theorem huge_read_breaks_fifo :
  let this := sample_queue [] 4 in
  let records := [sample_key 65 1; sample_key 66 1] in
  exists w,
    WriteBuffer (host := sample_host true) records 2 this = Some w
    /\ wrStatus w = STATUS_SUCCESS
    /\ wrEventsWritten w = 2
    /\ contents (wrInfo w) = records
    /\ let r1 := ReadBuffer (host := sample_host true) 214748365 false false
                   true (wrInfo w) in
       let r2 := ReadBuffer (host := sample_host true) 2 false false true
                   (rdInfo r1) in
       rdStatus r1 = STATUS_SUCCESS
       /\ rdEventsRead r1 = 0
       /\ rdBuffer r1 = []
       /\ Out (rdInfo r1) = Out (wrInfo w) + 4
       /\ GetNumberOfReadyEvents (rdInfo r1) = 1
       /\ rdStatus r2 = STATUS_SUCCESS
       /\ rdEventsRead r2 = 1
       /\ length (rdBuffer r2) = 1%nat
       /\ In (rdInfo r2) = Out (rdInfo r2)
       /\ rdBuffer r1 ++ rdBuffer r2 <> records.
Proof.
  cbv zeta. eexists. split; [vm_compute; reflexivity|].
  vm_compute. repeat split; try reflexivity. discriminate.
Qed.

(** C6.  Two reads after which the event and the number of ready events
    disagree, on buffers where they agreed.  On an empty buffer, when
    the caller waits and the wait reports success, [ReadInputBuffer]
    goes on to [ReadBuffer], which takes [In = Out] for a full store:
    one record is handed out, two are then counted ready, and the event
    stays reset.  On a buffer that holds one record, a read of
    214748365 records (4 bytes, modulo 2^32: the length in bytes is
    computed unchecked) moves [Out] 4 bytes: no event is counted ready,
    and the event stays signalled. *)
Theorem read_breaks_wait_signal :
  (let this := sample_buffer blank_record 0 in
   let r := ReadInputBuffer (host := sample_host true) 1 false true false 0
              STATUS_SUCCESS true this in
   wf this /\ signal_ok this
   /\ GetNumberOfReadyEvents this = 0
   /\ riStatus r = STATUS_SUCCESS
   /\ riLength r = 1
   /\ GetNumberOfReadyEvents (riInfo r) = 2
   /\ InputWaitEvent (riInfo r) = false
   /\ ~ signal_ok (riInfo r))
  /\ (let this := sample_queue [sample_key 65 1] 4 in
      let r := ReadInputBuffer (host := sample_host true) 214748365 false
                 false false 0 STATUS_SUCCESS true this in
      wf this /\ signal_ok this
      /\ GetNumberOfReadyEvents this = 1
      /\ riStatus r = STATUS_SUCCESS
      /\ riLength r = 0
      /\ Out (riInfo r) = Out this + 4
      /\ GetNumberOfReadyEvents (riInfo r) = 0
      /\ InputWaitEvent (riInfo r) = true
      /\ ~ signal_ok (riInfo r)).
Proof.
  cbv zeta. split.
  - split; [apply sample_buffer_wf; lia|].
    split; [split; intros H; vm_compute in H; discriminate H|].
    do 5 (split; [reflexivity|]).
    intros [_ H]. assert (K : 0 < 2) by lia.
    pose proof (H K) as E. vm_compute in E. discriminate E.
  - split; [apply sample_queue_wf; vm_compute; congruence|].
    split; [split; intros _; vm_compute; reflexivity|].
    do 6 (split; [reflexivity|]).
    intros [H _]. pose proof (H eq_refl) as E.
    vm_compute in E. discriminate E.
Qed.
